(** * devpod-provider-gcloud: the delete command and the SSH key bootstrap

    A shallow embedding of [cmd/delete.go] (package [cmd]) and of the key
    helpers of package [ssh], together with the properties their
    specification states about them.

    The Go code is a sequence of calls into the operating system, the
    crypto libraries and the cloud client wrapper, each followed by
    [if err != nil { return ... }].  It is embedded as explicit state
    passing over a model of the process environment: a function of Go type
    [func(...) (T, error)] that touches the environment becomes a Rocq
    function [... -> M world T], where [M world T = world -> result T * world]. *)

From Stdlib Require Import ZArith String List Lia Bool.
From stdpp Require Import base option gmap strings list.

Open Scope string_scope.
Open Scope list_scope.
Open Scope Z_scope.

(** ** Go errors and results *)

Module errors.

(** The [error] values the program handles: errors of package [os]
    ([*fs.PathError]), message-only errors ([errors.New], [errors.Errorf],
    [fmt.Errorf]) and the wrappers built by [errors.Wrap]. *)
Inductive error : Type :=
| PathError (op path reason : string)
| Message (msg : string)
| WithMessage (cause : error) (msg : string).

(** [err.Error()] *)
Fixpoint Error (err : error) : string :=
  match err with
  | PathError op path reason => op +:+ " " +:+ path +:+ ": " +:+ reason
  | Message msg => msg
  | WithMessage cause msg => msg +:+ ": " +:+ Error cause
  end.

(** [errors.Wrap(err, message)], at a non-nil [err]. *)
Definition Wrap (err : error) (message : string) : error :=
  WithMessage err message.

(** [errors.Errorf(prefix + "%v", err)]: a new error, whose message
    holds the text of [err]; nothing is wrapped. *)
Definition Errorf_v (prefix : string) (err : error) : error :=
  Message (prefix +:+ Error err).

Definition is_wrapped (err : error) : bool :=
  match err with
  | WithMessage _ _ => true
  | _ => false
  end.

End errors.

Export errors.

(** A Go result pair [(T, error)]: either the value with a nil error, or
    the error. *)
Inductive result (A : Type) : Type :=
| Ok (a : A)
| Err (err : error).

Arguments Ok {A} a.
Arguments Err {A} err.

(** Computations that read and change an environment [W]. *)
Definition M (W A : Type) : Type := W -> result A * W.

(** Go octal literals: [octal [7;5;5]] is [0755]. *)
Definition octal (digits : list Z) : Z :=
  fold_left (fun acc d => 8 * acc + d) digits 0.

(** ** The libraries the program calls

    [path/filepath], [crypto/rsa], [crypto/x509], [encoding/pem] and
    [golang.org/x/crypto/ssh] are not part of the program: their types and
    pure functions are parameters of the development. *)

(** [pem.Block] *)
Record pem_Block : Type := {
  Type_ : string;
  Headers : list (string * string);
  Bytes : string;
}.

Class GoLib : Type := {
  (** [filepath.Join(dir, name)] *)
  filepath_Join : string -> string -> string;
  (** [*rsa.PrivateKey], [crypto.PublicKey], [ssh.PublicKey], [ssh.Signer] *)
  rsa_PrivateKey : Type;
  crypto_PublicKey : Type;
  ssh_PublicKey : Type;
  ssh_Signer : Type;
  (** the method [Public] of [*rsa.PrivateKey] *)
  rsa_Public : rsa_PrivateKey -> crypto_PublicKey;
  x509_MarshalPKCS1PrivateKey : rsa_PrivateKey -> string;
  x509_ParsePKCS1PrivateKey : string -> result rsa_PrivateKey;
  pem_EncodeToMemory : pem_Block -> string;
  pem_Decode : string -> option (pem_Block * string);
  ssh_NewPublicKey : crypto_PublicKey -> result ssh_PublicKey;
  ssh_MarshalAuthorizedKey : ssh_PublicKey -> string;
  ssh_ParsePrivateKey : string -> result ssh_Signer;
  (** the method [PublicKey] of [ssh.Signer] *)
  ssh_Signer_PublicKey : ssh_Signer -> ssh_PublicKey;
}.

(** [crypto.Signer]: the interface [generateKeys] receives; only its
    method [Public] is called. *)
Record crypto_Signer `{GoLib} : Type := {
  Public : crypto_PublicKey;
}.

(** A [*rsa.PrivateKey] used as a [crypto.Signer]. *)
Definition rsa_Signer `{GoLib} (key : rsa_PrivateKey) : crypto_Signer :=
  {| Public := rsa_Public key |}.

(** Labels of PEM blocks made of capital letters, digits and spaces, which
    is what RFC 7468 labels such as [RSA PRIVATE KEY] look like. *)
Definition pem_label_char (c : Ascii.ascii) : bool :=
  let n := Z.of_nat (Ascii.nat_of_ascii c) in
  ((65 <=? n) && (n <=? 90)) || ((48 <=? n) && (n <=? 57)) || (n =? 32).

Fixpoint pem_label_ok (label : string) : bool :=
  match label with
  | EmptyString => true
  | String c rest => pem_label_char c && pem_label_ok rest
  end.

(** ** The process environment of package [ssh]: files and randomness *)

Module sys.

(** What a path names: a directory or a regular file, with its
    permission bits.  A path names its node directly: links are not
    modelled, and the properties speak of the paths the calls name. *)
Inductive node : Type :=
| Dir (mode : Z)
| File (mode : Z) (content : string).

(** The calls the key helpers make. *)
Inductive call : Type :=
| MkdirAll (path : string) (perm : Z)
| Stat (name : string)
| WriteFile (name data : string) (perm : Z)
| ReadFile (name : string)
| GenerateKey (bits : Z).

(** How the environment can make a call fail: before it has any effect,
    or (for a write) after the file was opened and [written] bytes of the
    data got through. *)
Inductive fault : Type :=
| Refused (err : error)
| Interrupted (err : error) (written : nat).

Definition fault_error (f : fault) : error :=
  match f with
  | Refused err => err
  | Interrupted err _ => err
  end.

(** One call with its outcome ([None]: a nil error). *)
Record event : Type := Ev {
  ev_call : call;
  ev_err : option error;
}.

Section world.
Context `{GoLib}.

(** The environment: the file system, the umask of the process, the
    failures to come ([oracle n] is the fate of the [n]-th call), the
    keys the random source will yield, and the calls made so far
    (oldest first). *)
Record world : Type := World {
  fs : gmap string node;
  umask : Z;
  oracle : nat -> option fault;
  entropy : nat -> rsa_PrivateKey;
  trace : list event;
}.

Definition clock (w : world) : nat := length (trace w).

Definition record (c : call) (err : option error) (w : world) : world :=
  {| fs := fs w; umask := umask w; oracle := oracle w;
     entropy := entropy w; trace := trace w ++ [Ev c err] |}.

Definition set_fs (files : gmap string node) (w : world) : world :=
  {| fs := files; umask := umask w; oracle := oracle w;
     entropy := entropy w; trace := trace w |}.

(** The permission bits a new entry gets: [perm] less the umask. *)
Definition create_mode (perm : Z) (w : world) : Z := Z.ldiff perm (umask w).

(** The events of a run from [w] to [w']. *)
Definition since (w w' : world) : list event :=
  drop (length (trace w)) (trace w').

(** An environment that makes no call fail. *)
Definition calm (w : world) : Prop := forall n, oracle w n = None.

End world.

Definition is_GenerateKey (e : event) : bool :=
  match ev_call e with GenerateKey _ => true | _ => false end.

Definition is_WriteFile (e : event) : bool :=
  match ev_call e with WriteFile _ _ _ => true | _ => false end.

(** How many keys were asked of the random source in [evs]. *)
Definition generations (evs : list event) : nat :=
  length (filter (fun e => is_GenerateKey e = true) evs).

(** The file writes attempted in [evs]. *)
Definition writes (evs : list event) : list event :=
  filter (fun e => is_WriteFile e = true) evs.

Definition is_failed_Stat (e : event) : bool :=
  match ev_call e, ev_err e with
  | Stat _, Some _ => true
  | _, _ => false
  end.

(** The [Stat] calls of [evs] that returned an error. *)
Definition failed_stats (evs : list event) : list event :=
  filter (fun e => is_failed_Stat e = true) evs.

End sys.

Import sys.

(** ** Package [os], as documented:
    - [MkdirAll] "creates a directory named path, along with any necessary
      parents [...] The permission bits perm (before umask) are used for all
      directories that MkdirAll creates. If path is already a directory,
      MkdirAll does nothing and returns nil."  (Parents are not tracked.)
    - [Stat] "returns a FileInfo describing the named file. If there is an
      error, it will be of type *PathError": it fails on a path that names
      nothing, and wherever the environment makes it fail (a directory
      that cannot be searched, an input/output error), be the file there
      or not.
    - [WriteFile] "writes data to the named file, creating it if necessary.
      If the file does not exist, WriteFile creates it with permissions perm
      (before umask); otherwise WriteFile truncates it before writing,
      without changing permissions. Since WriteFile requires multiple system
      calls to complete, a failure mid-operation can leave the file in a
      partially written state."
    - [ReadFile] returns the content of a regular file. *)
Module os.
Section os.
Context `{GoLib}.

Definition MkdirAll (path : string) (perm : Z) : M world unit := fun w =>
  let c := sys.MkdirAll path perm in
  match oracle w (clock w) with
  | Some f => (Err (fault_error f), record c (Some (fault_error f)) w)
  | None =>
      match fs w !! path with
      | Some (Dir _) => (Ok tt, record c None w)
      | Some (File _ _) =>
          let err := PathError "mkdir" path "not a directory" in
          (Err err, record c (Some err) w)
      | None =>
          (Ok tt, record c None
                    (set_fs (<[path := Dir (create_mode perm w)]> (fs w)) w))
      end
  end.

Definition Stat (name : string) : M world node := fun w =>
  let c := sys.Stat name in
  match oracle w (clock w) with
  | Some f => (Err (fault_error f), record c (Some (fault_error f)) w)
  | None =>
      match fs w !! name with
      | Some n => (Ok n, record c None w)
      | None =>
          let err := PathError "stat" name "no such file or directory" in
          (Err err, record c (Some err) w)
      end
  end.

(** The file system after [data] was written to [name], where that is
    possible: a new file gets [perm] less the umask, an existing file
    keeps its mode. *)
Definition store (name data : string) (perm : Z) (w : world)
  : option (gmap string node) :=
  match fs w !! name with
  | Some (Dir _) => None
  | Some (File mode _) => Some (<[name := File mode data]> (fs w))
  | None => Some (<[name := File (create_mode perm w) data]> (fs w))
  end.

Definition WriteFile (name data : string) (perm : Z) : M world unit := fun w =>
  let c := sys.WriteFile name data perm in
  let is_dir := PathError "open" name "is a directory" in
  match oracle w (clock w) with
  | Some (Refused err) => (Err err, record c (Some err) w)
  | Some (Interrupted err written) =>
      match store name (substring 0 written data) perm w with
      | Some files => (Err err, record c (Some err) (set_fs files w))
      | None => (Err is_dir, record c (Some is_dir) w)
      end
  | None =>
      match store name data perm w with
      | Some files => (Ok tt, record c None (set_fs files w))
      | None => (Err is_dir, record c (Some is_dir) w)
      end
  end.

Definition ReadFile (name : string) : M world string := fun w =>
  let c := sys.ReadFile name in
  match oracle w (clock w) with
  | Some f => (Err (fault_error f), record c (Some (fault_error f)) w)
  | None =>
      match fs w !! name with
      | Some (File _ content) => (Ok content, record c None w)
      | Some (Dir _) =>
          let err := PathError "read" name "is a directory" in
          (Err err, record c (Some err) w)
      | None =>
          let err := PathError "open" name "no such file or directory" in
          (Err err, record c (Some err) w)
      end
  end.

End os.
End os.

(** ** Package [crypto/rsa] with [rand.Reader] *)
Module rsa.
Section rsa.
Context `{GoLib}.

(** [rsa.GenerateKey(rand.Reader, bits)]: the next key of the random
    source, unless the environment makes the call fail. *)
Definition GenerateKey (bits : Z) : M world rsa_PrivateKey := fun w =>
  let c := sys.GenerateKey bits in
  match oracle w (clock w) with
  | Some f => (Err (fault_error f), record c (Some (fault_error f)) w)
  | None => (Ok (entropy w (clock w)), record c None w)
  end.

End rsa.
End rsa.

(** ** Package [golang.org/x/crypto/ssh]: the client configuration *)

(** [ssh.AuthMethod]; [ssh.PublicKeys(signers...)] builds the first. *)
Inductive ssh_AuthMethod `{GoLib} : Type :=
| ssh_PublicKeys (signers : list ssh_Signer)
| ssh_Password (secret : string).

(** [ssh.HostKeyCallback]: called with the host name, the remote address
    and the host's key; a nil error ([None]) accepts the host. *)
Definition ssh_HostKeyCallback `{GoLib} : Type :=
  string -> string -> ssh_PublicKey -> option error.

(** [ssh.InsecureIgnoreHostKey()] "returns a function that can be used for
    ClientConfig.HostKeyCallback to accept any host key". *)
Definition ssh_InsecureIgnoreHostKey `{GoLib} : ssh_HostKeyCallback :=
  fun _ _ _ => None.

(** [ssh.ClientConfig], with the fields the program sets. *)
Record ssh_ClientConfig `{GoLib} : Type := {
  Auth : list ssh_AuthMethod;
  User : string;
  HostKeyCallback : ssh_HostKeyCallback;
}.

(** ** Package [ssh] of the provider *)

Module ssh.
Section ssh.
Context `{GoLib}.

Definition DevPodSSHPrivateKeyFile : string := "id_devpod_rsa".
Definition DevPodSSHPublicKeyFile : string := "id_devpod_rsa.pub".

Definition ConfigFromKeyBytes (keyBytes : string) : result ssh_ClientConfig :=
  let clientConfig :=
    {| Auth := [];
       User := "devpod";
       HostKeyCallback := ssh_InsecureIgnoreHostKey |} in
  match ssh_ParsePrivateKey keyBytes with
  | Err err => Err (errors.Wrap err "parse private key")
  | Ok signer =>
      let clientConfig :=
        {| Auth := app (Auth clientConfig) [ssh_PublicKeys [signer]];
           User := User clientConfig;
           HostKeyCallback := HostKeyCallback clientConfig |} in
      Ok clientConfig
  end.

(** [NewClient], over the dialer [ssh.Dial] of the library. *)
Definition NewClient {Conn : Type}
    (ssh_Dial : string -> string -> ssh_ClientConfig -> result Conn)
    (addr : string) (keyBytes : string) : result Conn :=
  match ConfigFromKeyBytes keyBytes with
  | Err err => Err err
  | Ok sshConfig =>
      match ssh_Dial "tcp" addr sshConfig with
      | Err err =>
          Err (Message ("dial to " +:+ addr +:+ " failed: " +:+ Error err))
      | Ok client => Ok client
      end
  end.

Definition generateKeys (block : pem_Block) (cp : crypto_Signer)
  : result (string * string) :=
  let pkBytes := pem_EncodeToMemory block in
  let privateKey := pkBytes in
  let publicKeyRaw := Public cp in
  match ssh_NewPublicKey publicKeyRaw with
  | Err err => Err err
  | Ok p =>
      let publicKey := ssh_MarshalAuthorizedKey p in
      Ok (privateKey, publicKey)
  end.

Definition rsaKeyGen : M world (string * string) := fun w =>
  match rsa.GenerateKey 2048 w with
  | (Err err, w) => (Err (errors.Errorf_v "generate private key: " err), w)
  | (Ok privateKeyRaw, w) =>
      (generateKeys
         {| Type_ := "RSA PRIVATE KEY";
            Headers := [];
            Bytes := x509_MarshalPKCS1PrivateKey privateKeyRaw |}
         (rsa_Signer privateKeyRaw), w)
  end.

Definition prepareDir (dir : string) : M world unit := fun w =>
  match os.MkdirAll dir (octal [7; 5; 5]) w with
  | (Err err, w) => (Err err, w)
  | (Ok _, w) =>
      (* check if key pair exists *)
      let privateKeyFile := filepath_Join dir DevPodSSHPrivateKeyFile in
      let publicKeyFile := filepath_Join dir DevPodSSHPublicKeyFile in
      match os.Stat privateKeyFile w with
      | (Ok _, w) => (Ok tt, w)
      | (Err _, w) =>
          match rsaKeyGen w with
          | (Err err, w) => (Err (errors.Wrap err "generate key pair"), w)
          | (Ok (privateKey, pubKey), w) =>
              match os.WriteFile publicKeyFile pubKey (octal [6; 4; 4]) w with
              | (Err err, w) =>
                  (Err (errors.Wrap err "write public ssh key"), w)
              | (Ok _, w) =>
                  match os.WriteFile privateKeyFile privateKey
                                     (octal [6; 0; 0]) w with
                  | (Err err, w) =>
                      (Err (errors.Wrap err "write private ssh key"), w)
                  | (Ok _, w) => (Ok tt, w)
                  end
              end
          end
      end
  end.

Definition GetPrivateKey (dir : string) : M world string := fun w =>
  let privateKeyFile := filepath_Join dir DevPodSSHPrivateKeyFile in
  match prepareDir dir w with
  | (Err err, w) => (Err err, w)
  | (Ok _, w) =>
      (* read public key *)
      match os.ReadFile privateKeyFile w with
      | (Err err, w) => (Err (errors.Wrap err "read public ssh key"), w)
      | (Ok out, w) => (Ok out, w)
      end
  end.

Definition GetPublicKey (dir : string) : M world string := fun w =>
  let publicKeyFile := filepath_Join dir DevPodSSHPublicKeyFile in
  match prepareDir dir w with
  | (Err err, w) => (Err err, w)
  | (Ok _, w) =>
      (* read public key *)
      match os.ReadFile publicKeyFile w with
      | (Err err, w) => (Err (errors.Wrap err "read public ssh key"), w)
      | (Ok out, w) => (Ok out, w)
      end
  end.

End ssh.
End ssh.

(** ** The cloud side: configuration and the compute client wrapper

    Packages [pkg/options] and [pkg/gcloud] are what the command calls into;
    the command sees them through [options.FromEnv], [gcloud.NewClient] and
    the methods of the client.  Their answers come from the environment. *)

(** Modelled from the spec: [options.Options] of [pkg/options], which is
    not among the sources: "Configuration: {project: string, zone: string,
    machineID: string}". *)
Record Options : Type := {
  Project : string;
  Zone : string;
  MachineID : string;
}.

(** Modelled from the spec: the client of [pkg/gcloud], which is not among
    the sources: an "opaque capability bound to {project, zone}". *)
Record Client : Type := {
  project : string;
  zone : string;
}.

(** [context.Context] and [log.Logger]: passed along, never inspected. *)
Inductive context : Type := context_Background.
Inductive Logger : Type := log_Default.

Module process.

(** The four operations of the compute API, "create, delete, start, stop". *)
Inductive operation : Type := Create | Delete | Start | Stop.

(** What a command can ask of the wrapper: a client, released again at the
    end, and the operations of the compute API on a machine. *)
Inductive call : Type :=
| Open (project zone : string)
| Compute (client : Client) (op : operation) (machineID : string)
| Release (client : Client).

Record event : Type := Ev {
  ev_call : call;
  ev_err : option error;
}.

(** The environment of a command: the outcome of reading the
    configuration from the environment variables, the answers of the cloud
    ([answers n] is the error of the [n]-th call, if it fails), and the
    calls made so far (oldest first). *)
Record cloud : Type := Cloud {
  environ : result Options;
  answers : nat -> option error;
  calls : list event;
}.

Definition record (c : call) (err : option error) (w : cloud) : cloud :=
  {| environ := environ w; answers := answers w;
     calls := calls w ++ [Ev c err] |}.

Definition invoke (c : call) : M cloud unit := fun w =>
  match answers w (List.length (calls w)) with
  | Some err => (Err err, record c (Some err) w)
  | None => (Ok tt, record c None w)
  end.

Definition is_Compute (e : event) : bool :=
  match ev_call e with Compute _ _ _ => true | _ => false end.

Definition is_Open (e : event) : bool :=
  match ev_call e with Open _ _ => true | _ => false end.

(** The compute-API calls among [evs]. *)
Definition compute_calls (evs : list event) : list event :=
  filter (fun e => is_Compute e = true) evs.

(** The clients asked for in [evs]. *)
Definition clients_opened (evs : list event) : list event :=
  filter (fun e => is_Open e = true) evs.

(** The events of a run from [w] to [w']. *)
Definition since (w w' : cloud) : list event :=
  drop (length (calls w)) (calls w').

(** The number of the next call. *)
Definition clock (w : cloud) : nat := length (calls w).

End process.

Module options.
Import process.

(** Modelled from the spec: [options.FromEnv()], which "reads environment
    variables into a configuration structure" or fails on "missing/invalid
    environment values". *)
Definition FromEnv : M cloud Options := fun w => (environ w, w).

End options.

Module gcloud.
Import process.

(** Modelled from the spec: [gcloud.NewClient(ctx, project, zone)] of
    [pkg/gcloud], which "opens a handle to the cloud compute API scoped to
    a project/zone", or fails with the error of opening it. *)
Definition NewClient (ctx : context) (project zone : string) : M cloud Client :=
  fun w =>
    match invoke (Open project zone) w with
    | (Err err, w) => (Err err, w)
    | (Ok _, w) => (Ok {| project := project; zone := zone |}, w)
    end.

(** Modelled from the spec: [client.Delete(ctx, machineID)] of
    [pkg/gcloud], one of the "four operations (create, delete, start,
    stop) that translate to single SDK calls"; the error of the call is
    handed back as it is. *)
Definition Delete (client : Client) (ctx : context) (machineID : string)
  : M cloud unit := invoke (Compute client process.Delete machineID).

(** Modelled from the spec: [client.Close()] of [pkg/gcloud], the
    "explicit close on command completion". *)
Definition Close (client : Client) : M cloud unit :=
  invoke (Release client).

End gcloud.

(** ** Package [cmd]: the delete command *)

Module cmd.
Import process.

(** [DeleteCmd] holds the cmd flags *)
Inductive DeleteCmd : Type := Build_DeleteCmd.

(** [Run] runs the command logic; the deferred [client.Close()] runs when
    [Run] returns, and its result is dropped. *)
Definition Run (cmd : DeleteCmd) (ctx : context) (options : Options)
    (log : Logger) : M cloud unit := fun w =>
  match gcloud.NewClient ctx (Project options) (Zone options) w with
  | (Err err, w) => (Err err, w)
  | (Ok client, w) =>
      let '(ret, w) := gcloud.Delete client ctx (MachineID options) w in
      let '(_, w) := gcloud.Close client w in
      (ret, w)
  end.

(** [cobra.Command], with the fields [NewDeleteCmd] sets. *)
Record cobra_Command : Type := {
  Use : string;
  Short : string;
  RunE : list string -> M cloud unit;
}.

(** [NewDeleteCmd] defines a command *)
Definition NewDeleteCmd : cobra_Command :=
  let cmd := Build_DeleteCmd in
  {| Use := "delete";
     Short := "Delete an instance";
     RunE := fun args w =>
       match options.FromEnv w with
       | (Err err, w) => (Err err, w)
       | (Ok options, w) => Run cmd context_Background options log_Default w
       end |}.

End cmd.

(** ** An executable instance of the libraries

    Keys are their own serialisation, a PEM block is its label, a line
    feed and its bytes, and paths are joined with a slash: enough to run
    the program of this file on concrete environments. *)

Module sample.

Definition LF : Ascii.ascii := Ascii.ascii_of_nat 10.

(** [cut s]: [s] split at its first line feed. *)
Fixpoint cut (s : string) : option (string * string) :=
  match s with
  | EmptyString => None
  | String c rest =>
      if Ascii.eqb c LF then Some (EmptyString, rest)
      else match cut rest with
           | Some (line, tail) => Some (String c line, tail)
           | None => None
           end
  end.

Definition encode (b : pem_Block) : string :=
  Type_ b +:+ String LF (Bytes b).

Definition decode (s : string) : option (pem_Block * string) :=
  match cut s with
  | Some (label, der) =>
      Some ({| Type_ := label; Headers := []; Bytes := der |}, "")
  | None => None
  end.

Definition parse_private_key (s : string) : result string :=
  match decode s with
  | Some (b, _) =>
      if String.eqb (Type_ b) "RSA PRIVATE KEY" then Ok (Bytes b)
      else Err (Message "ssh: unsupported key type")
  | None => Err (Message "ssh: no key found")
  end.

Definition lib : GoLib := {|
  filepath_Join dir name := dir +:+ "/" +:+ name;
  rsa_PrivateKey := string;
  crypto_PublicKey := string;
  ssh_PublicKey := string;
  ssh_Signer := string;
  rsa_Public key := "public:" +:+ key;
  x509_MarshalPKCS1PrivateKey key := key;
  x509_ParsePKCS1PrivateKey der := Ok der;
  pem_EncodeToMemory := encode;
  pem_Decode := decode;
  ssh_NewPublicKey pub := Ok pub;
  ssh_MarshalAuthorizedKey pub := "ssh-rsa " +:+ pub;
  ssh_ParsePrivateKey := parse_private_key;
  ssh_Signer_PublicKey signer := "public:" +:+ signer;
|}.

(** A random source that yields the keys [key0], [key1], ... *)
Definition keys (n : nat) : string :=
  "key" +:+ String (Ascii.ascii_of_nat (48 + n)) "".

Definition no_faults : nat -> option fault := fun _ => None.

(** The [n]-th call fails with fault [f], the others go through. *)
Definition fault_at (n : nat) (f : fault) : nat -> option fault :=
  fun k => if Nat.eqb k n then Some f else None.


Definition world_of (files : gmap string node) (faults : nat -> option fault)
  : @world lib :=
  {| fs := files; umask := octal [0; 2; 2]; oracle := faults;
     entropy := (keys : nat -> @rsa_PrivateKey lib); trace := [] |}.

Definition dir : string := "/home/dev/.ssh".
Definition private_path : string := "/home/dev/.ssh/id_devpod_rsa".
Definition public_path : string := "/home/dev/.ssh/id_devpod_rsa.pub".

(** Nothing on disk yet. *)
Definition fresh : @world lib := world_of ∅ no_faults.

(** An empty directory. *)
Definition empty_dir : @world lib :=
  world_of {[ dir := Dir (octal [7; 0; 0]) ]} no_faults.

(** A directory with a private-key file of arbitrary content. *)
Definition with_private : @world lib :=
  world_of (<[private_path := File (octal [6; 0; 0]) "not a key at all"]>
              {[ dir := Dir (octal [7; 0; 0]) ]}) no_faults.

(** A directory with a stale public-key file, readable by its owner
    only, and no private-key file. *)
Definition with_public (faults : nat -> option fault) : @world lib :=
  world_of (<[public_path := File (octal [6; 0; 0]) "ssh-rsa stale"]>
              {[ dir := Dir (octal [7; 0; 0]) ]}) faults.

(** The same directory in an environment with failures to come. *)
Definition with_private_under (faults : nat -> option fault) : @world lib :=
  world_of (fs with_private) faults.

(** An empty directory in an environment with failures to come. *)
Definition empty_dir_under (faults : nat -> option fault) : @world lib :=
  world_of (fs empty_dir) faults.

Definition EACCES : error := PathError "mkdir" dir "permission denied".
Definition EIO : error := PathError "stat" private_path "input/output error".
Definition EOF : error := Message "unexpected EOF".
Definition ENOSPC : error :=
  PathError "write" private_path "no space left on device".

Definition opts : Options :=
  {| Project := "my-project"; Zone := "europe-west1-b"; MachineID := "devpod-1" |}.

Definition quota : error := Message "googleapi: Error 403: quota exceeded".

(** A cloud whose [n]-th call fails with [err]. *)
Definition cloud_failing (n : nat) : process.cloud :=
  {| process.environ := Ok opts;
     process.answers := fun k => if Nat.eqb k n then Some quota else None;
     process.calls := [] |}.

End sample.

(** ** The vocabulary of the properties *)

Section vocabulary.
Context `{GoLib}.
Import ssh.

(** [extends w w' evs]: the run from [w] to [w'] made the calls [evs], and
    touched neither the umask, nor the failures to come, nor the random
    source. *)
Definition extends (w w' : world) (evs : list event) : Prop :=
  trace w' = trace w ++ evs /\ umask w' = umask w /\
  oracle w' = oracle w /\ entropy w' = entropy w.

(** The environment after [os.MkdirAll path perm] went through. *)
Definition made (path : string) (perm : Z) (w : world) : world :=
  set_fs (match fs w !! path with
          | None => <[path := Dir (create_mode perm w)]> (fs w)
          | Some _ => fs w
          end) w.

Global Arguments made : simpl never.

(** The paths of the two key files of [dir], as [prepareDir] and the
    retrievals compute them. *)
Definition privateKeyFile (dir : string) : string :=
  filepath_Join dir DevPodSSHPrivateKeyFile.

Definition publicKeyFile (dir : string) : string :=
  filepath_Join dir DevPodSSHPublicKeyFile.

(** The PEM text [rsaKeyGen] returns for the key [key]. *)
Definition private_pem (key : rsa_PrivateKey) : string :=
  pem_EncodeToMemory
    {| Type_ := "RSA PRIVATE KEY"; Headers := [];
       Bytes := x509_MarshalPKCS1PrivateKey key |}.

(** The directory and its two key files are three different paths. *)
Definition key_paths_distinct (dir : string) : Prop :=
  privateKeyFile dir <> dir /\ publicKeyFile dir <> dir /\
  privateKeyFile dir <> publicKeyFile dir.

(** The key the random source yields to a bootstrap started in [w]: the
    third call of the run draws it. *)
Definition drawn (w : world) : rsa_PrivateKey := entropy w (clock w + 2)%nat.

(** The mode of the file at [name], or [perm] less the umask where there
    is no such file. *)
Definition file_mode (name : string) (perm : Z) (w : world) : Z :=
  match fs w !! name with
  | Some (File mode _) => mode
  | _ => create_mode perm w
  end.

(** The mode of the directory at [path], or [perm] less the umask where
    nothing is there. *)
Definition dir_mode (path : string) (perm : Z) (w : world) : Z :=
  match fs w !! path with
  | Some (Dir mode) => mode
  | _ => create_mode perm w
  end.

(** The error [os.Stat] returns to a bootstrap started in [w] that finds
    no private-key file: what the environment has for the second call of
    the run, or else that nothing is at the path. *)
Definition stat_error (dir : string) (w : world) : error :=
  match oracle w (clock w + 1)%nat with
  | Some f => fault_error f
  | None => PathError "stat" (privateKeyFile dir) "no such file or directory"
  end.

(** The calls of a bootstrap that generates the pair with public key [p]. *)
Definition generation_calls (dir : string) (p : ssh_PublicKey) (w : world)
  : list event :=
  [Ev (MkdirAll dir (octal [7; 5; 5])) None;
   Ev (Stat (privateKeyFile dir)) (Some (stat_error dir w));
   Ev (GenerateKey 2048) None;
   Ev (WriteFile (publicKeyFile dir) (ssh_MarshalAuthorizedKey p)
                 (octal [6; 4; 4])) None;
   Ev (WriteFile (privateKeyFile dir) (private_pem (drawn w))
                 (octal [6; 0; 0])) None].

(** The environment after a bootstrap that generated the key pair with
    public key [p]. *)
Definition generated (dir : string) (p : ssh_PublicKey) (w : world) : world :=
  let privateKey := private_pem (drawn w) in
  let pubKey := ssh_MarshalAuthorizedKey p in
  {| fs := <[privateKeyFile dir :=
               File (create_mode (octal [6; 0; 0]) w) privateKey]>
             (<[publicKeyFile dir :=
                  File (file_mode (publicKeyFile dir) (octal [6; 4; 4]) w)
                       pubKey]>
                (fs (made dir (octal [7; 5; 5]) w)));
     umask := umask w; oracle := oracle w; entropy := entropy w;
     trace := trace w ++ generation_calls dir p w |}.

(** The calls that found the directory without a private-key file. *)
Definition search_calls (dir : string) (w : world) : list event :=
  [Ev (MkdirAll dir (octal [7; 5; 5])) None;
   Ev (Stat (privateKeyFile dir)) (Some (stat_error dir w))].

(** The environment when the key was drawn: the directory is there, the
    private-key file was looked for and not found. *)
Definition searched (dir : string) (w : world) : world :=
  record (Stat (privateKeyFile dir)) (Some (stat_error dir w))
         (record (MkdirAll dir (octal [7; 5; 5])) None
                 (made dir (octal [7; 5; 5]) w)).



(** The call at which [prepareDir] gave up with [err], and its outcome:
    a failed [MkdirAll] hands its error back as it is; the other stages
    wrap theirs under a label. *)
Inductive gave_up (dir : string) (err : error) : call -> option error -> Prop :=
| at_MkdirAll :
    gave_up dir err (MkdirAll dir (octal [7; 5; 5])) (Some err)
| at_GenerateKey cause outcome :
    err = Wrap cause "generate key pair" ->
    (forall e, outcome = Some e -> cause = Errorf_v "generate private key: " e) ->
    gave_up dir err (GenerateKey 2048) outcome
| at_public_write data e :
    err = Wrap e "write public ssh key" ->
    gave_up dir err (WriteFile (publicKeyFile dir) data (octal [6; 4; 4])) (Some e)
| at_private_write data e :
    err = Wrap e "write private ssh key" ->
    gave_up dir err (WriteFile (privateKeyFile dir) data (octal [6; 0; 0])) (Some e).

(** The runs of [prepareDir] from [w]: what it returns, after which
    calls.  A run that finds the private-key file stops there; a run whose
    [Stat] fails goes on to draw a key, and stops at the first call after
    that which fails. *)
Inductive run (dir : string) (w : world) : result unit -> list event -> Prop :=
| run_mkdir_failed err :
    run dir w (Err err) [Ev (MkdirAll dir (octal [7; 5; 5])) (Some err)]
| run_found :
    run dir w (Ok tt)
        [Ev (MkdirAll dir (octal [7; 5; 5])) None;
         Ev (Stat (privateKeyFile dir)) None]
| run_no_key e :
    run dir w
        (Err (Wrap (Errorf_v "generate private key: " e) "generate key pair"))
        (search_calls dir w ++ [Ev (GenerateKey 2048) (Some e)])
| run_no_public_key cause :
    ssh_NewPublicKey (rsa_Public (drawn w)) = Err cause ->
    run dir w (Err (Wrap cause "generate key pair"))
        (search_calls dir w ++ [Ev (GenerateKey 2048) None])
| run_public_write_failed p e :
    ssh_NewPublicKey (rsa_Public (drawn w)) = Ok p ->
    run dir w (Err (Wrap e "write public ssh key"))
        (search_calls dir w ++
         [Ev (GenerateKey 2048) None;
          Ev (WriteFile (publicKeyFile dir) (ssh_MarshalAuthorizedKey p)
                        (octal [6; 4; 4])) (Some e)])
| run_private_write_failed p e :
    ssh_NewPublicKey (rsa_Public (drawn w)) = Ok p ->
    run dir w (Err (Wrap e "write private ssh key"))
        (search_calls dir w ++
         [Ev (GenerateKey 2048) None;
          Ev (WriteFile (publicKeyFile dir) (ssh_MarshalAuthorizedKey p)
                        (octal [6; 4; 4])) None;
          Ev (WriteFile (privateKeyFile dir) (private_pem (drawn w))
                        (octal [6; 0; 0])) (Some e)])
| run_generated p :
    ssh_NewPublicKey (rsa_Public (drawn w)) = Ok p ->
    run dir w (Ok tt) (generation_calls dir p w).

(** The public keys an authentication method offers to the server. *)
Definition offered (method : ssh_AuthMethod) : list ssh_PublicKey :=
  match method with
  | ssh_PublicKeys signers => map ssh_Signer_PublicKey signers
  | ssh_Password _ => []
  end.

End vocabulary.

(** ** More vocabulary: runs of requests, the client handle *)

Section requests.
Context `{GoLib}.
Import ssh.

(** The calls of a whole bootstrap, in the order the code makes them. *)
Definition bootstrap_calls (dir pubKey privateKey : string) : list call :=
  [MkdirAll dir (octal [7; 5; 5]);
   Stat (privateKeyFile dir);
   GenerateKey 2048;
   WriteFile (publicKeyFile dir) pubKey (octal [6; 4; 4]);
   WriteFile (privateKeyFile dir) privateKey (octal [6; 0; 0])].

(** The public-key text of the key a bootstrap started in [w] would draw,
    where the library accepts that key. *)
Definition public_text (w : world) : string :=
  match ssh_NewPublicKey (rsa_Public (drawn w)) with
  | Ok p => ssh_MarshalAuthorizedKey p
  | Err _ => ""
  end.

(** The calls the package has a reason to make for [dir]: the directory
    asked for with 0755, the private-key file looked for, a 2048-bit key,
    the public-key file written with 0644 and the private-key file with
    0600, and either key file read. *)
Definition own_call (dir : string) (c : call) : bool :=
  match c with
  | MkdirAll path perm => String.eqb path dir && (perm =? octal [7; 5; 5])
  | Stat name => String.eqb name (privateKeyFile dir)
  | GenerateKey bits => bits =? 2048
  | WriteFile name _ perm =>
      String.eqb name (publicKeyFile dir) && (perm =? octal [6; 4; 4])
      || String.eqb name (privateKeyFile dir) && (perm =? octal [6; 0; 0])
  | ReadFile name =>
      String.eqb name (privateKeyFile dir) || String.eqb name (publicKeyFile dir)
  end.

(** [tidy dir evs]: the calls of [evs] are calls of the package for
    [dir], as many keys were asked for as [Stat] calls failed, and at most
    two files were written for each. *)
Definition tidy (dir : string) (evs : list event) : Prop :=
  forallb (fun e => own_call dir (ev_call e)) evs = true /\
  generations evs = length (failed_stats evs) /\
  (length (writes evs) <= 2 * length (failed_stats evs))%nat.

(** A directory is settled once it is a directory and something is at the
    path of its private-key file. *)
Definition settled (dir : string) (w : world) : Prop :=
  (exists mode, fs w !! dir = Some (Dir mode)) /\
  is_Some (fs w !! privateKeyFile dir).

(** What a user of the package can ask for, any number of times. *)
Inductive request : Type := Bootstrap | PrivateKey | PublicKey.

(** The environment after one request, whatever it answered. *)
Definition serve (dir : string) (q : request) (w : world) : world :=
  match q with
  | Bootstrap => snd (prepareDir dir w)
  | PrivateKey => snd (GetPrivateKey dir w)
  | PublicKey => snd (GetPublicKey dir w)
  end.

Definition serve_all (dir : string) (qs : list request) (w : world) : world :=
  fold_left (fun w q => serve dir q w) qs w.

(** [stats_succeed dir qs w]: while the requests [qs] are served from
    [w], no [os.Stat] call returns an error. *)
Definition stats_succeed (dir : string) (qs : list request) (w : world) : Prop :=
  failed_stats (since w (serve_all dir qs w)) = [].

(** What a request answers: the key text, or nothing for a bootstrap. *)
Definition reply (dir : string) (q : request) (w : world) : result string :=
  match q with
  | Bootstrap =>
      match fst (prepareDir dir w) with
      | Ok _ => Ok ""
      | Err err => Err err
      end
  | PrivateKey => fst (GetPrivateKey dir w)
  | PublicKey => fst (GetPublicKey dir w)
  end.

(** What a request that answers [out] has found on disk in [w]. *)
Definition on_disk (dir : string) (q : request) (w : world) (out : string)
  : Prop :=
  match q with
  | Bootstrap => out = ""
  | PrivateKey =>
      exists mode, fs w !! privateKeyFile dir = Some (File mode out)
  | PublicKey =>
      exists mode, fs w !! publicKeyFile dir = Some (File mode out)
  end.

(** The labels under which the key helpers report a failed call, as they
    show in the text of the error. *)
Definition stage_prefixes : list string :=
  [""; "generate key pair: generate private key: ";
   "write public ssh key: "; "write private ssh key: ";
   "read public ssh key: "].

End requests.

Module handle.
Import process.

Definition is_Release (e : event) : bool :=
  match ev_call e with Release _ => true | _ => false end.

(** The clients released in [evs]. *)
Definition releases (evs : list event) : list event :=
  filter (fun e => is_Release e = true) evs.

(** The clients obtained in [evs]: the [Open] calls that went through. *)
Definition obtained (evs : list event) : list event :=
  filter (fun e => is_Open e = true /\ ev_err e = None) evs.

(** The cloud [w] with other answers. *)
Definition with_answers (a : nat -> option error) (w : cloud) : cloud :=
  {| environ := environ w; answers := a; calls := calls w |}.

End handle.

(** * Properties *)

Import ssh.

(** ** Runs of the environment calls *)

Section calls.
Context `{GoLib}.

Lemma since_app (w w' : world) evs :
  trace w' = trace w ++ evs -> since w w' = evs.
Proof.
  intros E. unfold since. rewrite E. by rewrite drop_app_length.
Qed.

Lemma extends_trans w w1 w2 evs1 evs2 :
  extends w w1 evs1 -> extends w1 w2 evs2 -> extends w w2 (evs1 ++ evs2).
Proof.
  intros (T1 & U1 & O1 & E1) (T2 & U2 & O2 & E2). repeat split; try congruence.
  rewrite T2, T1. by rewrite app_assoc.
Qed.

Lemma MkdirAll_extends path perm w r w' :
  os.MkdirAll path perm w = (r, w') ->
  extends w w' [Ev (MkdirAll path perm)
                   (match r with Ok _ => None | Err err => Some err end)].
Proof.
  unfold os.MkdirAll. intros E.
  repeat case_match; simplify_eq; by repeat split.
Qed.

Lemma Stat_extends name w r w' :
  os.Stat name w = (r, w') ->
  extends w w' [Ev (Stat name)
                   (match r with Ok _ => None | Err err => Some err end)]
  /\ fs w' = fs w.
Proof.
  unfold os.Stat. intros E.
  repeat case_match; simplify_eq; by repeat split.
Qed.

Lemma WriteFile_extends name data perm w r w' :
  os.WriteFile name data perm w = (r, w') ->
  extends w w' [Ev (WriteFile name data perm)
                   (match r with Ok _ => None | Err err => Some err end)].
Proof.
  unfold os.WriteFile. intros E.
  repeat case_match; simplify_eq; by repeat split.
Qed.

(** *** What each outcome of a call tells *)

Lemma set_fs_id (w : world) : set_fs (fs w) w = w.
Proof. by destruct w. Qed.

Lemma MkdirAll_Ok path perm w u w' :
  os.MkdirAll path perm w = (Ok u, w') ->
  oracle w (clock w) = None /\
  (forall mode content, fs w !! path <> Some (File mode content)) /\
  w' = record (MkdirAll path perm) None (made path perm w).
Proof.
  unfold os.MkdirAll, made. intros E.
  repeat case_match; simplify_eq; rewrite ?set_fs_id; repeat split; congruence.
Qed.

Lemma MkdirAll_Err path perm w err w' :
  os.MkdirAll path perm w = (Err err, w') ->
  w' = record (MkdirAll path perm) (Some err) w.
Proof.
  unfold os.MkdirAll. intros E. repeat case_match; by simplify_eq.
Qed.

Lemma MkdirAll_calm path perm w :
  oracle w (clock w) = None ->
  (forall mode content, fs w !! path <> Some (File mode content)) ->
  os.MkdirAll path perm w
  = (Ok tt, record (MkdirAll path perm) None (made path perm w)).
Proof.
  unfold os.MkdirAll, made. intros -> NF.
  repeat case_match; simplify_eq; rewrite ?set_fs_id; try done.
  by destruct (NF mode content).
Qed.

Lemma Stat_Ok name w n w' :
  os.Stat name w = (Ok n, w') ->
  oracle w (clock w) = None /\
  fs w !! name = Some n /\ w' = record (Stat name) None w.
Proof. unfold os.Stat. intros E. by repeat case_match; simplify_eq. Qed.

(** A [Stat] that fails was made to fail, or found nothing. *)
Lemma Stat_Err name w err w' :
  os.Stat name w = (Err err, w') ->
  w' = record (Stat name) (Some err) w /\
  match oracle w (clock w) with
  | Some f => err = fault_error f
  | None => fs w !! name = None /\
            err = PathError "stat" name "no such file or directory"
  end.
Proof. unfold os.Stat. intros E. by repeat case_match; simplify_eq. Qed.

Lemma Stat_calm name w n :
  oracle w (clock w) = None -> fs w !! name = Some n ->
  os.Stat name w = (Ok n, record (Stat name) None w).
Proof. unfold os.Stat. by intros -> ->. Qed.

Lemma GenerateKey_Ok bits w key w' :
  rsa.GenerateKey bits w = (Ok key, w') ->
  oracle w (clock w) = None /\ key = entropy w (clock w) /\
  w' = record (GenerateKey bits) None w.
Proof. unfold rsa.GenerateKey. intros E. by repeat case_match; simplify_eq. Qed.

Lemma GenerateKey_Err bits w err w' :
  rsa.GenerateKey bits w = (Err err, w') ->
  (exists f, oracle w (clock w) = Some f /\ err = fault_error f) /\
  w' = record (GenerateKey bits) (Some err) w.
Proof.
  unfold rsa.GenerateKey. intros E. repeat case_match; simplify_eq. eauto.
Qed.

Lemma WriteFile_Ok name data perm w u w' :
  os.WriteFile name data perm w = (Ok u, w') ->
  oracle w (clock w) = None /\
  exists files, os.store name data perm w = Some files /\
                w' = record (WriteFile name data perm) None (set_fs files w).
Proof.
  unfold os.WriteFile. intros E. repeat case_match; simplify_eq. eauto.
Qed.

(** A failed write either changed nothing, or was interrupted after the
    file was opened: then the file holds the first [written] bytes. *)
Lemma WriteFile_Err name data perm w err w' :
  os.WriteFile name data perm w = (Err err, w') ->
  w' = record (WriteFile name data perm) (Some err) w \/
  exists written files,
    oracle w (clock w) = Some (Interrupted err written) /\
    os.store name (substring 0 written data) perm w = Some files /\
    w' = record (WriteFile name data perm) (Some err) (set_fs files w).
Proof.
  unfold os.WriteFile. intros E. repeat case_match; simplify_eq; eauto 10.
Qed.

Lemma WriteFile_calm name data perm w files :
  oracle w (clock w) = None ->
  os.store name data perm w = Some files ->
  os.WriteFile name data perm w
  = (Ok tt, record (WriteFile name data perm) None (set_fs files w)).
Proof. unfold os.WriteFile. by intros -> ->. Qed.

Lemma ReadFile_Ok name w out w' :
  os.ReadFile name w = (Ok out, w') ->
  oracle w (clock w) = None /\
  (exists mode, fs w !! name = Some (File mode out)) /\
  w' = record (ReadFile name) None w.
Proof.
  unfold os.ReadFile. intros E. repeat case_match; simplify_eq. eauto.
Qed.

Lemma ReadFile_Err name w err w' :
  os.ReadFile name w = (Err err, w') ->
  w' = record (ReadFile name) (Some err) w.
Proof. unfold os.ReadFile. intros E. by repeat case_match; simplify_eq. Qed.

Lemma ReadFile_calm name w mode content :
  oracle w (clock w) = None ->
  fs w !! name = Some (File mode content) ->
  os.ReadFile name w = (Ok content, record (ReadFile name) None w).
Proof. unfold os.ReadFile. by intros -> ->. Qed.

Lemma made_lookup_ne path perm w other :
  other <> path -> fs (made path perm w) !! other = fs w !! other.
Proof.
  unfold made. intros NE. cbn [fs set_fs]. case_match; [done|].
  by rewrite lookup_insert_ne.
Qed.

Lemma made_lookup path perm w :
  (forall mode content, fs w !! path <> Some (File mode content)) ->
  fs (made path perm w) !! path
  = Some (Dir (match fs w !! path with
               | Some (Dir mode) => mode
               | _ => create_mode perm w
               end)).
Proof.
  unfold made. intros NF. cbn [fs set_fs].
  destruct (fs w !! path) as [[m|m c]|] eqn:E.
  - done.
  - by destruct (NF m c).
  - by rewrite lookup_insert_eq.
Qed.

Lemma made_dir path perm w mode :
  fs w !! path = Some (Dir mode) -> made path perm w = w.
Proof. unfold made. intros ->. apply set_fs_id. Qed.

Lemma umask_made path perm w : umask (made path perm w) = umask w.
Proof. done. Qed.
Lemma oracle_made path perm w : oracle (made path perm w) = oracle w.
Proof. done. Qed.
Lemma entropy_made path perm w : entropy (made path perm w) = entropy w.
Proof. done. Qed.
Lemma trace_made path perm w : trace (made path perm w) = trace w.
Proof. done. Qed.

End calls.

(** ** The key bootstrap *)

Section bootstrap.
Context `{GoLib}.

Lemma extends_record c err (w : world) : extends w (record c err w) [Ev c err].
Proof. by repeat split. Qed.

Lemma extends_refl (w : world) : extends w w [].
Proof. repeat split. by rewrite app_nil_r. Qed.

Lemma extends_set_fs_r files (w w' : world) evs :
  extends w w' evs -> extends w (set_fs files w') evs.
Proof. done. Qed.

Lemma extends_step c err (w w' : world) evs :
  extends w w' evs -> extends w (record c err w') (evs ++ [Ev c err]).
Proof. intros E. eapply extends_trans; [done|]. apply extends_record. Qed.

Lemma extends_since (w w' : world) evs : extends w w' evs -> since w w' = evs.
Proof. intros (T & _). by apply since_app. Qed.

Lemma rsaKeyGen_Ok w privateKey pubKey w' :
  rsaKeyGen w = (Ok (privateKey, pubKey), w') ->
  oracle w (clock w) = None /\
  w' = record (GenerateKey 2048) None w /\
  privateKey = private_pem (entropy w (clock w)) /\
  exists p, ssh_NewPublicKey (rsa_Public (entropy w (clock w))) = Ok p /\
            pubKey = ssh_MarshalAuthorizedKey p.
Proof.
  unfold rsaKeyGen, generateKeys. intros E.
  destruct (rsa.GenerateKey 2048 w) as [[key|err] wk] eqn:G; [|done].
  apply GenerateKey_Ok in G as (O & -> & ->). cbn [Public rsa_Signer] in E.
  destruct (ssh_NewPublicKey _) as [p|] eqn:P; simplify_eq.
  split_and!; eauto.
Qed.

Lemma rsaKeyGen_Err_cause w err w' :
  rsaKeyGen w = (Err err, w') ->
  exists outcome,
    w' = record (GenerateKey 2048) outcome w /\
    match outcome with
    | Some e => err = Errorf_v "generate private key: " e
    | None => ssh_NewPublicKey (rsa_Public (entropy w (clock w))) = Err err
    end.
Proof.
  unfold rsaKeyGen, generateKeys. intros E.
  destruct (rsa.GenerateKey 2048 w) as [[key|e] wk] eqn:G.
  - apply GenerateKey_Ok in G as (_ & -> & ->). cbn [Public rsa_Signer] in E.
    destruct (ssh_NewPublicKey _) eqn:P; simplify_eq. by exists None.
  - apply GenerateKey_Err in G as (_ & ->). simplify_eq. by exists (Some e).
Qed.

Lemma rsaKeyGen_calm w p :
  oracle w (clock w) = None ->
  ssh_NewPublicKey (rsa_Public (entropy w (clock w))) = Ok p ->
  rsaKeyGen w = (Ok (private_pem (entropy w (clock w)),
                     ssh_MarshalAuthorizedKey p),
                 record (GenerateKey 2048) None w).
Proof.
  intros O P. unfold rsaKeyGen, generateKeys, rsa.GenerateKey. rewrite O.
  cbn [Public rsa_Signer]. by rewrite P.
Qed.

Lemma clock_record c err (w : world) : clock (record c err w) = S (clock w).
Proof. unfold clock. cbn [trace record]. rewrite length_app. cbn. lia. Qed.

Lemma clock_two (w : world) : S (S (clock w)) = (clock w + 2)%nat.
Proof. lia. Qed.

Ltac worlds :=
  unfold create_mode in *;
  cbn [fs umask oracle entropy trace record set_fs] in *;
  repeat rewrite clock_record in *;
  change (clock (set_fs ?f ?w)) with (clock w) in *;
  change (clock (made ?p ?m ?w)) with (clock w) in *;
  rewrite ?umask_made, ?oracle_made, ?entropy_made, ?trace_made in *.

Lemma searched_extends dir w : extends w (searched dir w) (search_calls dir w).
Proof. repeat split. cbn. by rewrite <- app_assoc. Qed.

Lemma clock_searched dir w : clock (searched dir w) = (clock w + 2)%nat.
Proof.
  unfold searched. rewrite !clock_record.
  change (clock (made _ _ w)) with (clock w). lia.
Qed.

Lemma failed_stats_app evs1 evs2 :
  failed_stats (evs1 ++ evs2) = failed_stats evs1 ++ failed_stats evs2.
Proof. apply filter_app. Qed.

Lemma failed_stats_search dir w rest :
  failed_stats (search_calls dir w ++ rest) <> [].
Proof. done. Qed.

(** *** The [Stat] of the bootstrap *)

(** When the [Stat] of the bootstrap fails, its error is [stat_error]. *)
Lemma Stat_failed dir w err wb :
  os.Stat (privateKeyFile dir)
          (record (MkdirAll dir (octal [7; 5; 5])) None
                  (made dir (octal [7; 5; 5]) w))
  = (Err err, wb) ->
  err = stat_error dir w /\ wb = searched dir w.
Proof.
  intros E. apply Stat_Err in E as (-> & O). revert O.
  unfold searched, stat_error. worlds. rewrite Nat.add_1_r.
  destruct (oracle w (S (clock w))); [by intros ->|]. by intros (_ & ->).
Qed.

(** Where the private-key file is missing, it fails. *)
Lemma Stat_absent dir w :
  privateKeyFile dir <> dir ->
  fs w !! privateKeyFile dir = None ->
  os.Stat (privateKeyFile dir)
          (record (MkdirAll dir (octal [7; 5; 5])) None
                  (made dir (octal [7; 5; 5]) w))
  = (Err (stat_error dir w), searched dir w).
Proof.
  intros Nd A.
  destruct (os.Stat _ _) as [[n|err] wb] eqn:E.
  - apply Stat_Ok in E as (_ & S & _). cbn [fs record] in S.
    rewrite made_lookup_ne in S by done. congruence.
  - by apply Stat_failed in E as (-> & ->).
Qed.

(** *** Every run of the bootstrap *)

Lemma prepareDir_runs dir w r w1 :
  prepareDir dir w = (r, w1) ->
  exists evs,
    extends w w1 evs /\ run dir w r evs /\
    (failed_stats evs = [] ->
     (exists err, r = Err err /\
                  os.MkdirAll dir (octal [7; 5; 5]) w = (Err err, w1)) \/
     (r = Ok tt /\ fs w1 = fs (made dir (octal [7; 5; 5]) w) /\
      is_Some (fs w1 !! privateKeyFile dir))).
Proof.
  intros E. unfold prepareDir in E.
  fold (privateKeyFile dir) (publicKeyFile dir) in E.
  destruct (os.MkdirAll _ _ w) as [[?|?] wa] eqn:Ea.
  2: { pose proof (MkdirAll_Err _ _ _ _ _ Ea) as ->. simplify_eq.
       eexists. split_and!; [apply extends_record|constructor|left; eauto]. }
  apply MkdirAll_Ok in Ea as (Oa & NF & ->).
  destruct (os.Stat _ _) as [[n|s] wb] eqn:Eb.
  { apply Stat_Ok in Eb as (_ & S & ->). simplify_eq.
    exists [Ev (MkdirAll dir (octal [7; 5; 5])) None;
            Ev (Stat (privateKeyFile dir)) None].
    split_and!; [by repeat split; cbn; rewrite <- app_assoc|constructor|].
    intros _. right. cbn [fs record] in *. eauto. }
  apply Stat_failed in Eb as (-> & ->).
  pose proof (searched_extends dir w) as Xs.
  pose proof (clock_searched dir w) as Cs.
  destruct (rsaKeyGen _) as [[[privateKey pubKey]|?] wc] eqn:Ec.
  2: { apply rsaKeyGen_Err_cause in Ec as (outcome & -> & C). simplify_eq.
       rewrite Cs in C. change (entropy (searched dir w)) with (entropy w) in C.
       fold (drawn w) in C.
       eexists. split; [by apply extends_step|].
       split; [|by intros N; destruct (failed_stats_search _ _ _ N)].
       destruct outcome as [e|]; [subst; constructor|by constructor]. }
  apply rsaKeyGen_Ok in Ec as (Oc & -> & -> & p & P & ->).
  change (entropy (searched dir w)) with (entropy w) in *.
  rewrite Cs in *. fold (drawn w) in *.
  pose proof (extends_step (GenerateKey 2048) None _ _ _ Xs) as Xc.
  destruct (os.WriteFile _ _ _ _) as [rd wd] eqn:Ed.
  pose proof (extends_trans _ _ _ _ _ Xc (WriteFile_extends _ _ _ _ _ _ Ed)) as Xd.
  rewrite <- app_assoc in Xd.
  destruct rd as [?|?].
  2: { simplify_eq. eexists. split; [done|].
       split; [by constructor|by intros N; destruct (failed_stats_search _ _ _ N)]. }
  destruct (os.WriteFile _ _ _ wd) as [re we] eqn:Ee.
  pose proof (extends_trans _ _ _ _ _ Xd (WriteFile_extends _ _ _ _ _ _ Ee)) as Xe.
  rewrite <- app_assoc in Xe.
  destruct re as [?|?]; simplify_eq.
  - eexists. split; [done|].
    split; [by apply (run_generated _ _ p)
           |by intros N; destruct (failed_stats_search _ _ _ N)].
  - eexists. split; [done|].
    split; [by constructor|by intros N; destruct (failed_stats_search _ _ _ N)].
Qed.

Lemma prepareDir_extends dir w r w1 :
  prepareDir dir w = (r, w1) -> exists evs, extends w w1 evs.
Proof. intros E. destruct (prepareDir_runs _ _ _ _ E) as (evs & X & _). eauto. Qed.

(** The keys a run asks for are as many as its failed [Stat] calls, and a
    run whose [Stat] went through writes nothing. *)
Lemma run_counts dir w r evs :
  run dir w r evs ->
  generations evs = length (failed_stats evs) /\
  (failed_stats evs = [] -> writes evs = []) /\
  (length (writes evs) <= 2 * length (failed_stats evs))%nat.
Proof. intros R. destruct R; split_and!; try done; cbv; lia. Qed.

(** *** The private-key file is there *)

Lemma prepareDir_present dir w dmode n r w1 :
  fs w !! dir = Some (Dir dmode) ->
  fs w !! privateKeyFile dir = Some n ->
  prepareDir dir w = (r, w1) ->
  failed_stats (since w w1) = [] ->
  fs w1 = fs w /\
  (exists evs, extends w w1 evs /\ generations evs = 0%nat /\ writes evs = []) /\
  (oracle w (clock w) = None -> r = Ok tt).
Proof.
  intros D P E N.
  destruct (prepareDir_runs _ _ _ _ E) as (evs & X & R & F).
  rewrite (extends_since _ _ _ X) in N.
  destruct (run_counts _ _ _ _ R) as (G & W & _).
  split_and!.
  - destruct (F N) as [(err & _ & Ea)|(_ & -> & _)].
    + by apply MkdirAll_Err in Ea as ->.
    + by rewrite (made_dir _ _ _ _ D).
  - exists evs. rewrite G, N. by split_and!; [|reflexivity|apply W].
  - intros O. destruct (F N) as [(err & _ & Ea)|(-> & _)]; [|done].
    rewrite MkdirAll_calm in Ea; [done..|]. congruence.
Qed.

(** *** The private-key file is missing *)

Lemma store_made_public dir w data files :
  publicKeyFile dir <> dir ->
  os.store (publicKeyFile dir) data (octal [6; 4; 4])
           (made dir (octal [7; 5; 5]) w) = Some files ->
  (forall mode, fs w !! publicKeyFile dir <> Some (Dir mode)) /\
  files = <[publicKeyFile dir :=
              File (file_mode (publicKeyFile dir) (octal [6; 4; 4]) w) data]>
            (fs (made dir (octal [7; 5; 5]) w)).
Proof.
  intros Pd. unfold os.store, file_mode. rewrite made_lookup_ne by done.
  unfold create_mode. rewrite umask_made.
  destruct (fs w !! publicKeyFile dir) as [[?|? ?]|]; intros; by simplify_eq.
Qed.

(** A bootstrap that finds no private-key file and succeeds has drawn one
    key, derived its public half, and written the two files. *)
Lemma prepareDir_Ok_generated dir w u w1 :
  key_paths_distinct dir ->
  fs w !! privateKeyFile dir = None ->
  prepareDir dir w = (Ok u, w1) ->
  (forall mode, fs w !! publicKeyFile dir <> Some (Dir mode)) /\
  exists p, ssh_NewPublicKey (rsa_Public (drawn w)) = Ok p /\
            w1 = generated dir p w.
Proof.
  intros (Nd & Pd & NP) A E. unfold prepareDir in E.
  fold (privateKeyFile dir) (publicKeyFile dir) in E.
  destruct (os.MkdirAll _ _ w) as [[?|?] wa] eqn:Ea; [|done].
  apply MkdirAll_Ok in Ea as (Oa & NF & ->).
  rewrite (Stat_absent _ _ Nd A) in E. unfold searched in E.
  destruct (rsaKeyGen _) as [[[privateKey pubKey]|?] wc] eqn:Ec; [|done].
  apply rsaKeyGen_Ok in Ec as (Oc & -> & -> & p & P & ->).
  destruct (os.WriteFile _ _ _ _) as [[?|?] wd] eqn:Ed; [|done].
  apply WriteFile_Ok in Ed as (Od & files1 & S1 & ->).
  destruct (os.WriteFile _ _ _ _) as [[?|?] we] eqn:Ee in E; [|done].
  apply WriteFile_Ok in Ee as (Oe & files2 & S2 & ->).
  simplify_eq. worlds. rewrite clock_two in *. fold (drawn w) in *.
  apply store_made_public in S1 as (ND & ->); [|done].
  split; [done|]. exists p. split; [done|].
  unfold os.store in S2. worlds.
  rewrite lookup_insert_ne in S2 by done.
  rewrite made_lookup_ne in S2 by done. rewrite A in S2. simplify_eq.
  unfold generated, record, set_fs. worlds.
  f_equal. by rewrite <- !app_assoc.
Qed.

(** Conversely, in an environment that lets the five calls through, with
    a key whose public half the library accepts and a public-key path
    that is not a directory, the bootstrap succeeds. *)
Lemma prepareDir_calm_generated dir w p :
  key_paths_distinct dir ->
  calm w ->
  (forall mode content, fs w !! dir <> Some (File mode content)) ->
  fs w !! privateKeyFile dir = None ->
  (forall mode, fs w !! publicKeyFile dir <> Some (Dir mode)) ->
  ssh_NewPublicKey (rsa_Public (drawn w)) = Ok p ->
  prepareDir dir w = (Ok tt, generated dir p w).
Proof.
  intros (Nd & Pd & NP) C NF A ND P. unfold prepareDir.
  fold (privateKeyFile dir) (publicKeyFile dir).
  rewrite MkdirAll_calm by (done || apply C).
  rewrite (Stat_absent _ _ Nd A). unfold searched.
  unfold drawn in *.
  rewrite (rsaKeyGen_calm _ p);
    [| worlds; apply C | worlds; by rewrite clock_two].
  worlds. rewrite clock_two.
  set (pubKey := ssh_MarshalAuthorizedKey p).
  set (privateKey := private_pem _).
  erewrite WriteFile_calm; [|apply C|]; last first.
  { unfold os.store. worlds. rewrite made_lookup_ne by done.
    instantiate (1 := <[publicKeyFile dir :=
              File (file_mode (publicKeyFile dir) (octal [6; 4; 4]) w) pubKey]>
            (fs (made dir (octal [7; 5; 5]) w))).
    unfold file_mode, create_mode.
    destruct (fs w !! publicKeyFile dir) as [[m|? ?]|] eqn:L'; try done.
    by destruct (ND m). }
  erewrite WriteFile_calm; [|apply C|]; last first.
  { unfold os.store. worlds. rewrite lookup_insert_ne by done.
    rewrite made_lookup_ne by done. rewrite A. done. }
  unfold generated, record, set_fs. worlds.
  do 2 f_equal. by rewrite <- !app_assoc.
Qed.

Lemma generated_extends dir p w :
  extends w (generated dir p w) (generation_calls dir p w).
Proof. by repeat split. Qed.

Lemma generated_private dir p w :
  fs (generated dir p w) !! privateKeyFile dir
  = Some (File (create_mode (octal [6; 0; 0]) w) (private_pem (drawn w))).
Proof. unfold generated. cbn [fs]. by rewrite lookup_insert_eq. Qed.

Lemma generated_public dir p w :
  key_paths_distinct dir ->
  fs (generated dir p w) !! publicKeyFile dir
  = Some (File (file_mode (publicKeyFile dir) (octal [6; 4; 4]) w)
               (ssh_MarshalAuthorizedKey p)).
Proof.
  intros (_ & _ & NP). unfold generated. cbn [fs].
  rewrite lookup_insert_ne by done. by rewrite lookup_insert_eq.
Qed.

Lemma generated_dir dir p w :
  key_paths_distinct dir ->
  (forall mode content, fs w !! dir <> Some (File mode content)) ->
  fs (generated dir p w) !! dir
  = Some (Dir (dir_mode dir (octal [7; 5; 5]) w)).
Proof.
  intros (Nd & Pd & _) NF. unfold generated. cbn [fs].
  do 2 (rewrite lookup_insert_ne by done). by apply made_lookup.
Qed.

(** *** The bootstrap fails *)



Lemma last_since c outcome (w w0 : world) evs :
  extends w w0 evs ->
  since w (record c outcome w0) = evs ++ [Ev c outcome] /\
  last (since w (record c outcome w0)) = Some (Ev c outcome).
Proof.
  intros X. rewrite (extends_since _ _ _ (extends_step c outcome _ _ _ X)).
  split; [done|]. apply last_snoc.
Qed.

Lemma calm_extends (w w' : world) evs : extends w w' evs -> calm w -> calm w'.
Proof. intros (_ & _ & O & _) C n. rewrite O. apply C. Qed.

(** A run whose [Stat] fails asks for a key. *)
Lemma run_failed_stat dir w r evs :
  run dir w r evs -> failed_stats evs <> [] -> generations evs = 1%nat.
Proof. intros R N. by destruct R. Qed.

Lemma failed_stats_step c outcome (w w0 : world) evs :
  extends w w0 evs ->
  failed_stats (since w (record c outcome w0)) = [] ->
  failed_stats (since w w0) = [].
Proof.
  intros X. destruct (last_since c outcome _ _ _ X) as [-> _].
  rewrite (extends_since _ _ _ X), failed_stats_app.
  by intros [-> _]%app_eq_nil.
Qed.

(** The bootstrap of a retrieval is the run that can have a failed
    [Stat]: the read comes after it. *)
Lemma GetPrivateKey_stats dir w r w1 :
  GetPrivateKey dir w = (r, w1) ->
  failed_stats (since w w1) = [] ->
  failed_stats (since w (snd (prepareDir dir w))) = [].
Proof.
  unfold GetPrivateKey. fold (privateKeyFile dir).
  destruct (prepareDir dir w) as [[u|err] w0] eqn:E0; cbn [snd];
    [|by intros [= <- <-]].
  destruct (prepareDir_extends _ _ _ _ E0) as [evs X].
  destruct (os.ReadFile _ w0) as [[out|err] wr] eqn:R; intros [= <- <-].
  - apply ReadFile_Ok in R as (_ & _ & ->). by eapply failed_stats_step.
  - apply ReadFile_Err in R as ->. by eapply failed_stats_step.
Qed.

Lemma GetPublicKey_stats dir w r w1 :
  GetPublicKey dir w = (r, w1) ->
  failed_stats (since w w1) = [] ->
  failed_stats (since w (snd (prepareDir dir w))) = [].
Proof.
  unfold GetPublicKey. fold (publicKeyFile dir).
  destruct (prepareDir dir w) as [[u|err] w0] eqn:E0; cbn [snd];
    [|by intros [= <- <-]].
  destruct (prepareDir_extends _ _ _ _ E0) as [evs X].
  destruct (os.ReadFile _ w0) as [[out|err] wr] eqn:R; intros [= <- <-].
  - apply ReadFile_Ok in R as (_ & _ & ->). by eapply failed_stats_step.
  - apply ReadFile_Err in R as ->. by eapply failed_stats_step.
Qed.

(** Where directory and private-key file are there and the environment
    lets the two calls through, the bootstrap finds the file. *)
Lemma prepareDir_found dir w dmode n :
  fs w !! dir = Some (Dir dmode) ->
  fs w !! privateKeyFile dir = Some n ->
  oracle w (clock w) = None ->
  oracle w (S (clock w)) = None ->
  prepareDir dir w
  = (Ok tt, record (Stat (privateKeyFile dir)) None
              (record (MkdirAll dir (octal [7; 5; 5])) None w)).
Proof.
  intros D P O1 O2. unfold prepareDir. fold (privateKeyFile dir).
  rewrite MkdirAll_calm; [|done|congruence].
  rewrite (made_dir _ _ _ _ D).
  by rewrite (Stat_calm _ _ n); [|worlds|].
Qed.

Lemma found_extends dir (w : world) :
  extends w (record (Stat (privateKeyFile dir)) None
               (record (MkdirAll dir (octal [7; 5; 5])) None w))
          [Ev (MkdirAll dir (octal [7; 5; 5])) None;
           Ev (Stat (privateKeyFile dir)) None].
Proof. repeat split. cbn. by rewrite <- app_assoc. Qed.

(** C1, as the code has it. For a directory whose private-key file
    exists, whatever the file holds, a [prepareDir] whose [Stat] of that
    file returns no error asks for no key and writes no file, and the file
    system is as it was; a [GetPrivateKey] that follows, and whose [Stat]
    returns no error either, does neither, and what it returns is the
    content of that file: any value it returns is that content, and it
    does return it when the environment makes no call fail.  There are
    such runs: where no call is made to fail, no [Stat] fails and both
    operations succeed.  [prepareDir] takes any error of [Stat] for the
    absence of the file: a run whose [Stat] fails asks for a key, although
    the file is there. *)
Theorem existing_private_key_is_kept dir w dmode mode content :
  fs w !! dir = Some (Dir dmode) ->
  fs w !! privateKeyFile dir = Some (File mode content) ->
  (forall r w1, prepareDir dir w = (r, w1) ->
     failed_stats (since w w1) = [] ->
     generations (since w w1) = 0%nat /\ writes (since w w1) = [] /\
     fs w1 = fs w /\
     forall r2 w2, GetPrivateKey dir w1 = (r2, w2) ->
       failed_stats (since w1 w2) = [] ->
       generations (since w1 w2) = 0%nat /\ writes (since w1 w2) = [] /\
       fs w2 = fs w /\
       (forall out, r2 = Ok out -> out = content) /\
       (calm w -> r2 = Ok content)) /\
  (calm w ->
   exists w1 w2,
     prepareDir dir w = (Ok tt, w1) /\ failed_stats (since w w1) = [] /\
     GetPrivateKey dir w1 = (Ok content, w2) /\
     failed_stats (since w1 w2) = []) /\
  (forall r w1, prepareDir dir w = (r, w1) ->
     failed_stats (since w w1) <> [] -> generations (since w w1) = 1%nat).
Proof.
  intros D P. split_and!.
  - intros r w1 E N.
    destruct (prepareDir_present _ _ _ _ _ _ D P E N)
      as (F1 & (evs1 & X1 & G1 & W1) & _).
    rewrite (extends_since _ _ _ X1). split_and!; [done..|].
    intros r2 w2 E2 N2.
    pose proof (GetPrivateKey_stats _ _ _ _ E2 N2) as Na.
    unfold GetPrivateKey in E2. fold (privateKeyFile dir) in E2.
    destruct (prepareDir dir w1) as [ru wa] eqn:Ea. cbn [snd] in Na.
    rewrite <- F1 in D, P.
    destruct (prepareDir_present _ _ _ _ _ _ D P Ea Na)
      as (Fa & (evsa & Xa & Ga & Wa) & R).
    destruct ru as [u|err].
    + destruct (os.ReadFile _ wa) as [[out|err] wb] eqn:Eb.
      * pose proof (ReadFile_Ok _ _ _ _ Eb) as (Ob & (m & L) & ->).
        simplify_eq. rewrite Fa, P in L. simplify_eq.
        rewrite (extends_since _ _ _ (extends_step _ _ _ _ _ Xa)).
        unfold generations, writes in *.
        rewrite !filter_app, length_app, Ga, Wa. cbn [fs record].
        split_and!; [done | done | congruence | by intros ? [= ->] | done].
      * pose proof (ReadFile_Err _ _ _ _ Eb) as ->. simplify_eq.
        rewrite (extends_since _ _ _ (extends_step _ _ _ _ _ Xa)).
        unfold generations, writes in *.
        rewrite !filter_app, length_app, Ga, Wa. cbn [fs record].
        split_and!; [done | done | congruence | done |].
        intros C. rewrite (ReadFile_calm _ _ mode content) in Eb; [done| |].
        -- eapply calm_extends; [|done]. eapply extends_trans; done.
        -- by rewrite Fa.
    + simplify_eq. rewrite (extends_since _ _ _ Xa).
      split_and!; [done | done | congruence | done |].
      intros C. discriminate R. by eapply calm_extends.
  - intros C. eexists _, _.
    pose proof (found_extends dir w) as X1.
    pose proof (calm_extends _ _ _ X1 C) as C1.
    pose proof (found_extends dir (record (Stat (privateKeyFile dir)) None
                  (record (MkdirAll dir (octal [7; 5; 5])) None w))) as X2.
    pose proof (calm_extends _ _ _ X2 C1) as C2.
    split_and!.
    + by apply (prepareDir_found _ _ dmode (File mode content)).
    + by rewrite (extends_since _ _ _ X1).
    + unfold GetPrivateKey. fold (privateKeyFile dir).
      rewrite (prepareDir_found _ _ dmode (File mode content)); [|done..].
      by rewrite (ReadFile_calm _ _ mode content).
    + by rewrite (extends_since _ _ _ (extends_step _ _ _ _ _ X2)).
  - intros r w1 E N. destruct (prepareDir_runs _ _ _ _ E) as (evs & X & R & _).
    rewrite (extends_since _ _ _ X) in *. by eapply run_failed_stat.
Qed.

(** C2, as the code has it. In a directory that holds neither key file,
    a first [prepareDir] that succeeds asks for exactly one key; a second
    one whose [Stat] of the private-key file returns no error asks for
    none and writes nothing, so that one key was generated over the two
    runs, and both key files, and the whole file system with them, are
    after the second run what they were after the first.  There are such
    runs: where no call is made to fail and the library accepts the key,
    both succeed and the second [Stat] goes through.  A second run whose
    [Stat] fails asks for a new key. *)
Theorem bootstrap_is_idempotent dir w dmode :
  key_paths_distinct dir ->
  fs w !! dir = Some (Dir dmode) ->
  fs w !! privateKeyFile dir = None ->
  fs w !! publicKeyFile dir = None ->
  (forall w1, prepareDir dir w = (Ok tt, w1) ->
   forall r2 w2, prepareDir dir w1 = (r2, w2) ->
     (failed_stats (since w1 w2) = [] ->
      generations (since w w1) = 1%nat /\
      generations (since w1 w2) = 0%nat /\
      generations (since w w2) = 1%nat /\
      writes (since w1 w2) = [] /\
      (exists m1 c1 m2 c2,
          fs w1 !! privateKeyFile dir = Some (File m1 c1) /\
          fs w1 !! publicKeyFile dir = Some (File m2 c2)) /\
      fs w2 !! privateKeyFile dir = fs w1 !! privateKeyFile dir /\
      fs w2 !! publicKeyFile dir = fs w1 !! publicKeyFile dir /\
      fs w2 = fs w1) /\
     (failed_stats (since w1 w2) <> [] ->
      generations (since w1 w2) = 1%nat /\
      generations (since w w2) = 2%nat)) /\
  (forall p, calm w -> ssh_NewPublicKey (rsa_Public (drawn w)) = Ok p ->
     exists w1 w2,
       prepareDir dir w = (Ok tt, w1) /\ prepareDir dir w1 = (Ok tt, w2) /\
       failed_stats (since w1 w2) = []).
Proof.
  intros K D A B. split.
  - intros w1 E1 r2 w2 E2.
    destruct (prepareDir_Ok_generated _ _ _ _ K A E1) as (_ & p & P & ->).
    pose proof (generated_extends dir p w) as X1.
    assert (fs (generated dir p w) !! dir = Some (Dir dmode)) as D1.
    { rewrite generated_dir; [|done|congruence]. unfold dir_mode. by rewrite D. }
    split.
    + intros N.
      destruct (prepareDir_present _ _ _ _ _ _ D1 (generated_private dir p w) E2 N)
        as (F2 & (evs2 & X2 & G2 & W2) & _).
      rewrite (extends_since _ _ _ X1), (extends_since _ _ _ X2).
      rewrite (extends_since _ _ _ (extends_trans _ _ _ _ _ X1 X2)).
      split_and!; try done.
      * unfold generations in *. rewrite filter_app, length_app, G2. reflexivity.
      * rewrite generated_private, generated_public by done.
        by eexists _, _, _, _.
      * by rewrite F2.
      * by rewrite F2.
    + intros N. destruct (prepareDir_runs _ _ _ _ E2) as (evs2 & X2 & R2 & _).
      rewrite (extends_since _ _ _ X2) in *.
      rewrite (extends_since _ _ _ (extends_trans _ _ _ _ _ X1 X2)).
      pose proof (run_failed_stat _ _ _ _ R2 N) as G2. split; [done|].
      unfold generations in *. rewrite filter_app, length_app, G2. reflexivity.
  - intros p C P.
    assert (prepareDir dir w = (Ok tt, generated dir p w)) as E1.
    { apply prepareDir_calm_generated; try done; congruence. }
    pose proof (generated_extends dir p w) as X1.
    pose proof (calm_extends _ _ _ X1 C) as C1.
    assert (fs (generated dir p w) !! dir = Some (Dir dmode)) as D1.
    { rewrite generated_dir; [|done|congruence]. unfold dir_mode. by rewrite D. }
    eexists _, _. split_and!; [done| |].
    + by eapply prepareDir_found; [|apply generated_private|..].
    + by rewrite (extends_since _ _ _ (found_extends dir _)).
Qed.

(** C9. In a directory that holds a public-key file and no private-key
    file, a [prepareDir] that succeeds has drawn a fresh key and written
    both files: the public-key file now holds the authorized-key text of
    the fresh key, whatever it held before (it keeps its mode), and the
    private-key file the PEM text of that key.  Such a run exists: the
    bootstrap succeeds when no call fails and the library accepts the
    public half of the key. *)
Theorem stale_public_key_is_overwritten dir w dmode pmode old :
  fs w !! dir = Some (Dir dmode) ->
  fs w !! publicKeyFile dir = Some (File pmode old) ->
  fs w !! privateKeyFile dir = None ->
  (forall w1, prepareDir dir w = (Ok tt, w1) ->
     exists p,
       ssh_NewPublicKey (rsa_Public (drawn w)) = Ok p /\
       since w w1 = generation_calls dir p w /\
       generations (since w w1) = 1%nat /\
       fs w1 !! publicKeyFile dir
       = Some (File pmode (ssh_MarshalAuthorizedKey p)) /\
       fs w1 !! privateKeyFile dir
       = Some (File (create_mode (octal [6; 0; 0]) w) (private_pem (drawn w)))) /\
  (forall p, calm w -> ssh_NewPublicKey (rsa_Public (drawn w)) = Ok p ->
     exists w1, prepareDir dir w = (Ok tt, w1)).
Proof.
  intros D B A.
  assert (key_paths_distinct dir) as K by (repeat split; congruence).
  split.
  - intros w1 E.
    destruct (prepareDir_Ok_generated _ _ _ _ K A E) as (_ & p & P & ->).
    exists p. rewrite (extends_since _ _ _ (generated_extends dir p w)).
    rewrite generated_private, generated_public by done.
    unfold file_mode. rewrite B. done.
  - intros p C P. eexists. apply prepareDir_calm_generated; try done; congruence.
Qed.

(** C5. Both retrievals run [prepareDir] first and read only after it
    went through: a failed bootstrap is their result, and otherwise the
    read is the one call they add.  In particular, for a directory that
    does not exist, in an environment that makes no call fail and with a
    key whose public half the library accepts, each of them creates the
    directory, draws one key, writes the two files, and returns what it
    just wrote: [GetPrivateKey] the PEM text of the fresh key,
    [GetPublicKey] its authorized-key text. *)
Theorem retrieval_bootstraps_first dir w :
  (forall r w1, GetPrivateKey dir w = (r, w1) ->
     match prepareDir dir w with
     | (Err err, w0) => r = Err err /\ w1 = w0
     | (Ok _, w0) =>
         exists outcome, w1 = record (ReadFile (privateKeyFile dir)) outcome w0
     end) /\
  (forall r w1, GetPublicKey dir w = (r, w1) ->
     match prepareDir dir w with
     | (Err err, w0) => r = Err err /\ w1 = w0
     | (Ok _, w0) =>
         exists outcome, w1 = record (ReadFile (publicKeyFile dir)) outcome w0
     end) /\
  (forall p,
     key_paths_distinct dir -> calm w ->
     fs w !! dir = None ->
     fs w !! privateKeyFile dir = None ->
     fs w !! publicKeyFile dir = None ->
     ssh_NewPublicKey (rsa_Public (drawn w)) = Ok p ->
     (exists w1,
         GetPrivateKey dir w = (Ok (private_pem (drawn w)), w1) /\
         since w w1 = generation_calls dir p w
                      ++ [Ev (ReadFile (privateKeyFile dir)) None] /\
         generations (since w w1) = 1%nat /\
         fs w1 !! dir = Some (Dir (create_mode (octal [7; 5; 5]) w))) /\
     (exists w1,
         GetPublicKey dir w = (Ok (ssh_MarshalAuthorizedKey p), w1) /\
         since w w1 = generation_calls dir p w
                      ++ [Ev (ReadFile (publicKeyFile dir)) None] /\
         generations (since w w1) = 1%nat /\
         fs w1 !! dir = Some (Dir (create_mode (octal [7; 5; 5]) w)))).
Proof.
  split_and!.
  - intros r w1. unfold GetPrivateKey. fold (privateKeyFile dir).
    destruct (prepareDir dir w) as [[u|err] w0]; [|by intros [= <- <-]].
    destruct (os.ReadFile _ w0) as [[out|err] wr] eqn:R; intros [= <- <-].
    + apply ReadFile_Ok in R as (_ & _ & ->). eauto.
    + apply ReadFile_Err in R as ->. eauto.
  - intros r w1. unfold GetPublicKey. fold (publicKeyFile dir).
    destruct (prepareDir dir w) as [[u|err] w0]; [|by intros [= <- <-]].
    destruct (os.ReadFile _ w0) as [[out|err] wr] eqn:R; intros [= <- <-].
    + apply ReadFile_Ok in R as (_ & _ & ->). eauto.
    + apply ReadFile_Err in R as ->. eauto.
  - intros p K C D A B P.
    assert (prepareDir dir w = (Ok tt, generated dir p w)) as E.
    { apply prepareDir_calm_generated; try done; congruence. }
    pose proof (generated_extends dir p w) as X.
    assert (fs (generated dir p w) !! dir
            = Some (Dir (create_mode (octal [7; 5; 5]) w))) as Dg.
    { rewrite generated_dir; [|done|congruence]. unfold dir_mode. by rewrite D. }
    split.
    + unfold GetPrivateKey. fold (privateKeyFile dir). rewrite E.
      erewrite ReadFile_calm;
        [|by apply (calm_extends _ _ _ X)|apply generated_private].
      eexists. split; [done|].
      destruct (last_since (ReadFile (privateKeyFile dir)) None _ _ _ X) as [-> _].
      split_and!; [done|reflexivity|done].
    + unfold GetPublicKey. fold (publicKeyFile dir). rewrite E.
      erewrite ReadFile_calm;
        [|by apply (calm_extends _ _ _ X)|by apply generated_public].
      eexists. split; [done|].
      destruct (last_since (ReadFile (publicKeyFile dir)) None _ _ _ X) as [-> _].
      split_and!; [done|reflexivity|done].
Qed.

(** *** Permission bits *)






(** *** Errors and their labels *)

Lemma WriteFile_Err_record name data perm w err w' :
  os.WriteFile name data perm w = (Err err, w') ->
  exists w0, extends w w0 [] /\
             w' = record (WriteFile name data perm) (Some err) w0.
Proof.
  intros E. apply WriteFile_Err in E as [->|(written & files & _ & _ & ->)].
  - exists w. split; [apply extends_refl|done].
  - exists (set_fs files w). split; [|done].
    apply extends_set_fs_r, extends_refl.
Qed.

Lemma prepareDir_Err_stage dir w err w1 :
  prepareDir dir w = (Err err, w1) ->
  exists w0 evs c outcome,
    extends w w0 evs /\ w1 = record c outcome w0 /\ gave_up dir err c outcome.
Proof.
  intros E. unfold prepareDir in E.
  fold (privateKeyFile dir) (publicKeyFile dir) in E.
  destruct (os.MkdirAll _ _ w) as [[?|?] wa] eqn:Ea.
  2: { apply MkdirAll_Err in Ea as ->. simplify_eq.
       eexists w, [], _, _. split_and!; [apply extends_refl|done|constructor]. }
  apply MkdirAll_extends in Ea as Xa.
  destruct (os.Stat _ wa) as [[?|?] wb] eqn:Eb; [done|].
  apply Stat_extends in Eb as [Xb _].
  pose proof (extends_trans _ _ _ _ _ Xa Xb) as Xab.
  destruct (rsaKeyGen wb) as [[[privateKey pubKey]|?] wc] eqn:Ec.
  2: { apply rsaKeyGen_Err_cause in Ec as (outcome & -> & C). simplify_eq.
       eexists wb, _, _, _. split_and!; [done|done|].
       econstructor; [done|]. by intros e ->. }
  apply rsaKeyGen_Ok in Ec as (_ & -> & _).
  pose proof (extends_step (GenerateKey 2048) None _ _ _ Xab) as Xc.
  destruct (os.WriteFile _ _ _ _) as [[?|?] wd] eqn:Ed.
  2: { simplify_eq. apply WriteFile_Err_record in Ed as (w0 & X0 & ->).
       eexists w0, _, _, _. split_and!; [|done|by constructor].
       eapply extends_trans; done. }
  apply WriteFile_extends in Ed as Xd.
  pose proof (extends_trans _ _ _ _ _ Xc Xd) as Xcd.
  destruct (os.WriteFile _ _ _ wd) as [[?|?] we] eqn:Ee; [done|].
  simplify_eq. apply WriteFile_Err_record in Ee as (w0 & X0 & ->).
  eexists w0, _, _, _. split_and!; [|done|by constructor].
  eapply extends_trans; done.
Qed.

(** *** A call that fails ends the run *)

Ltac split_trace NS :=
  unfold generation_calls, search_calls in *;
  repeat match goal with
         | E : _ = ?pre ++ _ :: _ |- _ => destruct pre; simplify_eq/=
         end;
  try (by destruct (NS _ eq_refl)).

(** In a run of the bootstrap a call that fails, the [Stat] apart, is the
    last call, and the run returns its error: as it is for the directory,
    under the label of its stage for the others. *)
Lemma run_failed_call dir w r evs pre c e post :
  run dir w r evs ->
  evs = pre ++ Ev c (Some e) :: post ->
  (forall name, c <> Stat name) ->
  post = [] /\ exists err, r = Err err /\ gave_up dir err c (Some e).
Proof.
  intros R E NS. destruct R; split_trace NS;
    (split; [done|]; eexists; split; [done|]).
  - constructor.
  - econstructor; [done|]. by intros ? [= ->].
  - by constructor.
  - by constructor.
Qed.

(** A key the library turns down ends the run too. *)
Lemma run_no_public dir w r evs cause :
  run dir w r evs ->
  Ev (GenerateKey 2048) None ∈ evs ->
  ssh_NewPublicKey (rsa_Public (drawn w)) = Err cause ->
  r = Err (Wrap cause "generate key pair") /\
  last evs = Some (Ev (GenerateKey 2048) None).
Proof.
  intros R I P. destruct R; try congruence.
  - apply elem_of_cons in I as [I|I]; [done|]. by apply elem_of_nil in I.
  - do 2 (apply elem_of_cons in I as [I|I]; [done|]). by apply elem_of_nil in I.
  - do 3 (apply elem_of_cons in I as [I|I]; [done|]). by apply elem_of_nil in I.
  - split; [congruence|done].
Qed.

(** After a bootstrap that went through, the one call that can have
    failed, the [Stat] apart, is the read that follows. *)
Lemma read_failed_call dir w u evs c0 outcome pre c e post :
  run dir w (Ok u) evs ->
  evs ++ [Ev c0 outcome] = pre ++ Ev c (Some e) :: post ->
  (forall name, c <> Stat name) ->
  post = [] /\ c = c0 /\ outcome = Some e.
Proof.
  intros R E NS. inversion R; subst; split_trace NS; done.
Qed.

(** C8, as the code has it. A failure makes the operation return at once,
    with the error of the call that failed.  Read from the result: when
    [prepareDir] returns an error, the call it gave up on is the last one
    made, the error of a failed directory creation comes back as it is,
    without a label, a failed key generation under the label of key
    generation and a failed write under the label of the file it was
    writing; [GetPrivateKey] and [GetPublicKey] hand back the error of a
    failed bootstrap as it is, and wrap the error of a failed read under a
    label, which for [GetPublicKey] is the label of the public-key read.
    Read from the calls: in any run of the three operations, a call that
    fails (the [Stat] apart, whose error is taken for the absence of the
    file) is the last call of the run, and the operation returns an
    error, which is the error of that call as said; and a key from which
    the library derives no public key ends [prepareDir] with the
    library's error under the label of key generation, before any write. *)
Theorem failures_return_at_once dir w err :
  (forall w1, prepareDir dir w = (Err err, w1) ->
     exists c outcome,
       last (since w w1) = Some (Ev c outcome) /\ gave_up dir err c outcome) /\
  (forall w1, GetPublicKey dir w = (Err err, w1) ->
     prepareDir dir w = (Err err, w1) \/
     exists e,
       last (since w w1) = Some (Ev (ReadFile (publicKeyFile dir)) (Some e)) /\
       err = Wrap e "read public ssh key") /\
  (forall w1, GetPrivateKey dir w = (Err err, w1) ->
     prepareDir dir w = (Err err, w1) \/
     exists e label,
       last (since w w1) = Some (Ev (ReadFile (privateKeyFile dir)) (Some e)) /\
       err = Wrap e label) /\
  (forall r w1 pre c e post,
     prepareDir dir w = (r, w1) ->
     since w w1 = pre ++ Ev c (Some e) :: post ->
     (forall name, c <> Stat name) ->
     post = [] /\
     exists err', r = Err err' /\ gave_up dir err' c (Some e)) /\
  (forall r w1 cause,
     prepareDir dir w = (r, w1) ->
     Ev (GenerateKey 2048) None ∈ since w w1 ->
     ssh_NewPublicKey (rsa_Public (drawn w)) = Err cause ->
     r = Err (Wrap cause "generate key pair") /\
     last (since w w1) = Some (Ev (GenerateKey 2048) None)) /\
  (forall r w1 pre c e post,
     GetPublicKey dir w = (r, w1) ->
     since w w1 = pre ++ Ev c (Some e) :: post ->
     (forall name, c <> Stat name) ->
     post = [] /\
     exists err', r = Err err' /\
       (gave_up dir err' c (Some e) \/
        c = ReadFile (publicKeyFile dir) /\
        err' = Wrap e "read public ssh key")) /\
  (forall r w1 pre c e post,
     GetPrivateKey dir w = (r, w1) ->
     since w w1 = pre ++ Ev c (Some e) :: post ->
     (forall name, c <> Stat name) ->
     post = [] /\
     exists err', r = Err err' /\
       (gave_up dir err' c (Some e) \/
        c = ReadFile (privateKeyFile dir) /\
        exists label, err' = Wrap e label)).
Proof.
  split_and!.
  - intros w1 E.
    apply prepareDir_Err_stage in E as (w0 & evs & c & outcome & X & -> & G).
    exists c, outcome. split; [|done]. by apply (last_since c outcome _ _ _ X).
  - intros w1. unfold GetPublicKey. fold (publicKeyFile dir).
    destruct (prepareDir dir w) as [[u|e0] w0] eqn:E0; [|intros [= <- <-]; by left].
    apply prepareDir_extends in E0 as (evs & X).
    destruct (os.ReadFile _ w0) as [[out|e] wr] eqn:R; intros [= <- <-].
    apply ReadFile_Err in R as ->. right. exists e. split; [|done].
    by apply (last_since _ _ _ _ _ X).
  - intros w1. unfold GetPrivateKey. fold (privateKeyFile dir).
    destruct (prepareDir dir w) as [[u|e0] w0] eqn:E0; [|intros [= <- <-]; by left].
    apply prepareDir_extends in E0 as (evs & X).
    destruct (os.ReadFile _ w0) as [[out|e] wr] eqn:R; intros [= <- <-].
    apply ReadFile_Err in R as ->. right. eexists e, _. split; [|done].
    by apply (last_since _ _ _ _ _ X).
  - intros r w1 pre c e post E S NS.
    destruct (prepareDir_runs _ _ _ _ E) as (evs & X & R & _).
    rewrite (extends_since _ _ _ X) in S. by eapply run_failed_call.
  - intros r w1 cause E I P.
    destruct (prepareDir_runs _ _ _ _ E) as (evs & X & R & _).
    rewrite (extends_since _ _ _ X) in *. by eapply run_no_public.
  - intros r w1 pre c e post. unfold GetPublicKey. fold (publicKeyFile dir).
    destruct (prepareDir dir w) as [r0 w0] eqn:E0.
    destruct (prepareDir_runs _ _ _ _ E0) as (evs & X & R & _).
    destruct r0 as [u|e0].
    + destruct (os.ReadFile _ w0) as [[out|e1] wr] eqn:Rd; intros [= <- <-] S NS.
      * apply ReadFile_Ok in Rd as (_ & _ & ->).
        destruct (last_since (ReadFile (publicKeyFile dir)) None _ _ _ X) as [S' _].
        rewrite S' in S.
        by destruct (read_failed_call _ _ _ _ _ _ _ _ _ _ R S NS) as (_ & _ & ?).
      * apply ReadFile_Err in Rd as ->.
        destruct (last_since (ReadFile (publicKeyFile dir)) (Some e1) _ _ _ X)
          as [S' _].
        rewrite S' in S.
        destruct (read_failed_call _ _ _ _ _ _ _ _ _ _ R S NS) as (-> & -> & [= ->]).
        split; [done|]. eexists. split; [done|]. by right.
    + intros [= <- <-] S NS. rewrite (extends_since _ _ _ X) in S.
      destruct (run_failed_call _ _ _ _ _ _ _ _ R S NS) as (-> & err' & [= <-] & G).
      split; [done|]. eexists. split; [done|]. by left.
  - intros r w1 pre c e post. unfold GetPrivateKey. fold (privateKeyFile dir).
    destruct (prepareDir dir w) as [r0 w0] eqn:E0.
    destruct (prepareDir_runs _ _ _ _ E0) as (evs & X & R & _).
    destruct r0 as [u|e0].
    + destruct (os.ReadFile _ w0) as [[out|e1] wr] eqn:Rd; intros [= <- <-] S NS.
      * apply ReadFile_Ok in Rd as (_ & _ & ->).
        destruct (last_since (ReadFile (privateKeyFile dir)) None _ _ _ X) as [S' _].
        rewrite S' in S.
        by destruct (read_failed_call _ _ _ _ _ _ _ _ _ _ R S NS) as (_ & _ & ?).
      * apply ReadFile_Err in Rd as ->.
        destruct (last_since (ReadFile (privateKeyFile dir)) (Some e1) _ _ _ X)
          as [S' _].
        rewrite S' in S.
        destruct (read_failed_call _ _ _ _ _ _ _ _ _ _ R S NS) as (-> & -> & [= ->]).
        split; [done|]. eexists. split; [done|]. right. eauto.
    + intros [= <- <-] S NS. rewrite (extends_since _ _ _ X) in S.
      destruct (run_failed_call _ _ _ _ _ _ _ _ R S NS) as (-> & err' & [= <-] & G).
      split; [done|]. eexists. split; [done|]. by left.
Qed.

(** X13. A private key that is there is lost when [Stat] fails: where the
    directory and its private-key file exist, the environment makes the
    [Stat] of the bootstrap fail and lets the other calls through, and the
    library accepts the key drawn, [prepareDir] succeeds after the five
    calls of a generation, and the private-key file then holds the new
    key, whatever it held, under the mode it had. *)
Theorem failed_stat_replaces_the_key dir w dmode mode content f p :
  key_paths_distinct dir ->
  fs w !! dir = Some (Dir dmode) ->
  fs w !! privateKeyFile dir = Some (File mode content) ->
  (forall m, fs w !! publicKeyFile dir <> Some (Dir m)) ->
  oracle w (clock w + 1)%nat = Some f ->
  (forall n, n <> (clock w + 1)%nat -> oracle w n = None) ->
  ssh_NewPublicKey (rsa_Public (drawn w)) = Ok p ->
  exists w1,
    prepareDir dir w = (Ok tt, w1) /\
    since w w1 = generation_calls dir p w /\
    failed_stats (since w w1)
    = [Ev (Stat (privateKeyFile dir)) (Some (fault_error f))] /\
    fs w1 !! privateKeyFile dir = Some (File mode (private_pem (drawn w))).
Proof.
  intros (Nd & Pd & NP) D P ND O1 C Pk. unfold prepareDir.
  fold (privateKeyFile dir) (publicKeyFile dir).
  rewrite MkdirAll_calm; [|apply C; lia|congruence].
  rewrite (made_dir _ _ _ _ D).
  assert (stat_error dir w = fault_error f) as Se
    by (unfold stat_error; by rewrite O1).
  assert (os.Stat (privateKeyFile dir)
            (record (MkdirAll dir (octal [7; 5; 5])) None w)
          = (Err (fault_error f),
             record (Stat (privateKeyFile dir)) (Some (fault_error f))
               (record (MkdirAll dir (octal [7; 5; 5])) None w))) as ->.
  { unfold os.Stat. worlds. rewrite <- Nat.add_1_r. by rewrite O1. }
  unfold drawn in *.
  rewrite (rsaKeyGen_calm _ p);
    [| worlds; apply C; lia | worlds; by rewrite clock_two].
  worlds. rewrite clock_two.
  set (pubKey := ssh_MarshalAuthorizedKey p).
  set (privateKey := private_pem _).
  rewrite (WriteFile_calm _ _ _ _
             (<[publicKeyFile dir :=
                  File (file_mode (publicKeyFile dir) (octal [6; 4; 4]) w) pubKey]>
                (fs w))).
  2: { apply C. unfold clock. cbn [trace record set_fs].
       rewrite !length_app. cbn [length]. clear. lia. }
  2: { unfold os.store. worlds. unfold file_mode, create_mode.
       destruct (fs w !! publicKeyFile dir) as [[m|? ?]|] eqn:L'; try done.
       by destruct (ND m). }
  rewrite (WriteFile_calm _ _ _ _
             (<[privateKeyFile dir := File mode privateKey]>
                (<[publicKeyFile dir :=
                     File (file_mode (publicKeyFile dir) (octal [6; 4; 4]) w)
                          pubKey]> (fs w)))).
  2: { apply C. unfold clock. cbn [trace record set_fs].
       rewrite !length_app. cbn [length]. clear. lia. }
  2: { unfold os.store. worlds. rewrite lookup_insert_ne by done.
       by rewrite P. }
  eexists. split; [done|].
  assert (forall (files : gmap string node) (evs : list event),
            since w {| fs := files; umask := umask w; oracle := oracle w;
                       entropy := entropy w; trace := trace w ++ evs |}
            = evs) as Si.
  { intros files evs. by apply since_app. }
  unfold record, set_fs. worlds. rewrite <- !app_assoc, Si.
  unfold generation_calls. rewrite Se. fold (drawn w). split_and!.
  - done.
  - done.
  - by rewrite lookup_insert_eq.
Qed.

(** The label [GetPrivateKey] puts on a failed read of the private-key
    file is the one of the public-key read. *)
Lemma GetPrivateKey_read_label dir w w0 e w1 :
  prepareDir dir w = (Ok tt, w0) ->
  os.ReadFile (privateKeyFile dir) w0 = (Err e, w1) ->
  GetPrivateKey dir w = (Err (Wrap e "read public ssh key"), w1).
Proof.
  intros E R. unfold GetPrivateKey. fold (privateKeyFile dir).
  by rewrite E, R.
Qed.

End bootstrap.

(** ** The generated key pair *)

Section keys.
Context `{GoLib}.

(** What the libraries promise: a PEM block without headers is decoded
    back from its encoding, a PKCS #1 key is parsed back from its
    serialisation, and [ssh.ParsePrivateKey] turns the PEM text of an
    unencrypted [RSA PRIVATE KEY] block into a signer for the key inside,
    whose public key is the one [ssh.NewPublicKey] derives. *)
Hypothesis pem_roundtrip : forall label der,
  pem_label_ok label = true ->
  pem_Decode (pem_EncodeToMemory
                {| Type_ := label; Headers := []; Bytes := der |})
  = Some ({| Type_ := label; Headers := []; Bytes := der |}, "").

Hypothesis pkcs1_roundtrip : forall key,
  x509_ParsePKCS1PrivateKey (x509_MarshalPKCS1PrivateKey key) = Ok key.

Hypothesis ParsePrivateKey_rsa : forall pemBytes der rest key pub,
  pem_Decode pemBytes
  = Some ({| Type_ := "RSA PRIVATE KEY"; Headers := []; Bytes := der |}, rest) ->
  x509_ParsePKCS1PrivateKey der = Ok key ->
  ssh_NewPublicKey (rsa_Public key) = Ok pub ->
  exists signer, ssh_ParsePrivateKey pemBytes = Ok signer /\
                 ssh_Signer_PublicKey signer = pub.

Lemma private_pem_parses key pub :
  ssh_NewPublicKey (rsa_Public key) = Ok pub ->
  exists signer, ssh_ParsePrivateKey (private_pem key) = Ok signer /\
                 ssh_Signer_PublicKey signer = pub.
Proof.
  intros P. eapply ParsePrivateKey_rsa; [|apply pkcs1_roundtrip|done].
  unfold private_pem. by apply pem_roundtrip.
Qed.

(** C7. A key pair that [rsaKeyGen] returns round-trips: the private-key
    text parses to a signer, and the authorized-key encoding of that
    signer's public key is the public-key text returned.  The same holds
    of the two files a successful bootstrap has written. *)
Theorem generated_pair_roundtrips :
  (forall w privateKey publicKey w1,
     rsaKeyGen w = (Ok (privateKey, publicKey), w1) ->
     exists signer,
       ssh_ParsePrivateKey privateKey = Ok signer /\
       ssh_MarshalAuthorizedKey (ssh_Signer_PublicKey signer) = publicKey) /\
  (forall dir w w1,
     key_paths_distinct dir ->
     fs w !! privateKeyFile dir = None ->
     prepareDir dir w = (Ok tt, w1) ->
     exists m1 privateKey m2 publicKey signer,
       fs w1 !! privateKeyFile dir = Some (File m1 privateKey) /\
       fs w1 !! publicKeyFile dir = Some (File m2 publicKey) /\
       ssh_ParsePrivateKey privateKey = Ok signer /\
       ssh_MarshalAuthorizedKey (ssh_Signer_PublicKey signer) = publicKey).
Proof.
  split.
  - intros w privateKey publicKey w1 E.
    apply rsaKeyGen_Ok in E as (_ & _ & -> & p & P & ->).
    destruct (private_pem_parses _ _ P) as (signer & S & <-). eauto.
  - intros dir w w1 K A E.
    destruct (prepareDir_Ok_generated _ _ _ _ K A E) as (_ & p & P & ->).
    destruct (private_pem_parses _ _ P) as (signer & S & <-).
    rewrite generated_private, generated_public by done.
    by eexists _, _, _, _, signer.
Qed.

End keys.

(** ** The client configuration *)

Section client.
Context `{GoLib}.

(** C6. For key bytes that parse as a private key, [ConfigFromKeyBytes]
    returns a configuration for the fixed user [devpod], whose one
    authentication method is the public key of the parsed signer, and
    whose host-key callback accepts every host key; [NewClient] dials
    with that configuration. *)
Theorem config_of_parsed_key keyBytes signer :
  ssh_ParsePrivateKey keyBytes = Ok signer ->
  exists config,
    ConfigFromKeyBytes keyBytes = Ok config /\
    User config = "devpod" /\
    Auth config = [ssh_PublicKeys [signer]] /\
    concat (map offered (Auth config)) = [ssh_Signer_PublicKey signer] /\
    (forall hostname remote key, HostKeyCallback config hostname remote key = None) /\
    (forall (Conn : Type) (dial : string -> string -> ssh_ClientConfig -> result Conn)
            addr conn,
        dial "tcp" addr config = Ok conn ->
        NewClient dial addr keyBytes = Ok conn).
Proof.
  intros P. unfold NewClient, ConfigFromKeyBytes. rewrite P.
  eexists. split; [done|]. cbn. split_and!; try done.
  by intros Conn dial addr conn ->.
Qed.

End client.

(** ** The delete command *)

Section delete.
Import process cmd.

(** C3, as the code has it. The command reads the configuration first: if
    that fails, it returns the error and asks nothing of the cloud, not
    even a client.  With a configuration, it asks for a client for the
    configured project and zone: if that fails, it returns the error and
    makes no compute-API call.  With a client, it makes exactly one
    compute-API call, [Delete] of the configured machine on that client,
    releases the client, and returns the error of the [Delete] call as it
    is (nil if there was none), whatever the release answered. *)
Theorem delete_command_contract args w :
  let '(r, w') := RunE NewDeleteCmd args w in
  (forall err, environ w = Err err ->
     r = Err err /\ w' = w /\ clients_opened (since w w') = []) /\
  (forall options err,
     environ w = Ok options -> answers w (clock w) = Some err ->
     r = Err err /\
     since w w' = [Ev (Open (Project options) (Zone options)) (Some err)] /\
     compute_calls (since w w') = []) /\
  (forall options,
     environ w = Ok options -> answers w (clock w) = None ->
     let client := {| project := Project options; zone := Zone options |} in
     let delete :=
       Ev (Compute client Delete (MachineID options)) (answers w (clock w + 1)) in
     r = match answers w (clock w + 1) with
         | Some err => Err err
         | None => Ok tt
         end /\
     since w w' = [Ev (Open (Project options) (Zone options)) None;
                   delete;
                   Ev (Release client) (answers w (clock w + 2))] /\
     compute_calls (since w w') = [delete]).
Proof.
  unfold RunE, NewDeleteCmd, options.FromEnv, Run, clock.
  destruct (environ w) as [options|err0] eqn:Env.
  2: { split_and!; try done. intros err [= <-].
       unfold since. by rewrite drop_all. }
  unfold gcloud.NewClient, gcloud.Delete, gcloud.Close, invoke.
  destruct (answers w (length (calls w))) as [err0|] eqn:A0.
  { split_and!; try done. intros ? ? [= <-] [= <-].
    unfold since. cbn [calls record]. by rewrite drop_app_length. }
  cbn [calls record answers]. rewrite !length_app. cbn [length].
  assert (forall e1 r1 e2 r2, since w (record e2 r2
            (record e1 r1 (record (Open (Project options) (Zone options)) None w)))
          = [Ev (Open (Project options) (Zone options)) None;
             Ev e1 r1; Ev e2 r2]) as S.
  { intros. unfold since. cbn [calls record].
    rewrite <- !app_assoc. by rewrite drop_app_length. }
  destruct (answers w (length (calls w) + 1)%nat) as [e1|] eqn:A1;
    cbn [calls record answers]; rewrite !length_app; cbn [length];
    rewrite <- Nat.add_assoc; cbn [Nat.add];
    destruct (answers w (length (calls w) + 2)%nat) as [e2|] eqn:A2;
    (split_and!; [done | done |]); intros ? [= <-] _; rewrite S; done.
Qed.

End delete.

(** ** Every run of the bootstrap: its calls and what it leaves alone *)

Section runs.
Context `{GoLib}.

Lemma store_other name data perm w files other :
  os.store name data perm w = Some files ->
  other <> name -> files !! other = fs w !! other.
Proof.
  unfold os.store. intros E NE.
  repeat case_match; simplify_eq; by rewrite lookup_insert_ne.
Qed.

Lemma WriteFile_other name data perm w r w' other :
  os.WriteFile name data perm w = (r, w') ->
  other <> name -> fs w' !! other = fs w !! other.
Proof.
  intros E NE. destruct r as [u|err].
  - apply WriteFile_Ok in E as (_ & files & S & ->). cbn [fs record set_fs].
    by apply (store_other _ _ _ _ _ _ S).
  - apply WriteFile_Err in E as [->|(written & files & _ & S & ->)]; [done|].
    cbn [fs record set_fs]. by apply (store_other _ _ _ _ _ _ S).
Qed.

(** *** What every run keeps to *)

Lemma tidy_nil dir : tidy dir [].
Proof. split_and!; try done; cbn; lia. Qed.

Lemma tidy_app dir evs1 evs2 :
  tidy dir evs1 -> tidy dir evs2 -> tidy dir (evs1 ++ evs2).
Proof.
  intros (O1 & G1 & W1) (O2 & G2 & W2). unfold tidy, generations, writes in *.
  rewrite forallb_app, O1, O2, failed_stats_app, !filter_app, !length_app.
  split_and!; [done|lia|lia].
Qed.

Lemma run_tidy dir w r evs : run dir w r evs -> tidy dir evs.
Proof.
  intros R. destruct R; (split_and!; [|done|cbv; lia]);
    cbn; by rewrite ?String.eqb_refl, ?orb_true_r.
Qed.

Lemma read_tidy dir name outcome :
  name = privateKeyFile dir \/ name = publicKeyFile dir ->
  tidy dir [Ev (ReadFile name) outcome].
Proof.
  intros N. split_and!; [|done|cbv; lia].
  cbn. destruct N as [->| ->]; by rewrite String.eqb_refl, ?orb_true_r.
Qed.

(** *** Requests, one after the other *)

(** Each request runs [prepareDir] first; what it does after that (one
    read, for the retrievals) changes nothing on disk. *)
Lemma serve_after_prepareDir dir q w :
  exists r0 w0 tail,
    prepareDir dir w = (r0, w0) /\
    extends w0 (serve dir q w) tail /\ fs (serve dir q w) = fs w0 /\
    tidy dir tail /\ failed_stats tail = [].
Proof.
  destruct (prepareDir dir w) as [r0 w0] eqn:E0. exists r0, w0.
  destruct q; unfold serve, GetPrivateKey, GetPublicKey; rewrite E0; cbn [snd].
  - exists []. split_and!; try done; first [apply extends_refl|apply tidy_nil].
  - destruct r0 as [u|err].
    + destruct (os.ReadFile _ w0) as [[out|err] wr] eqn:R; cbn [snd].
      * apply ReadFile_Ok in R as (_ & _ & ->).
        eexists. split_and!; [done|apply extends_record|done| |done].
        apply read_tidy. by left.
      * apply ReadFile_Err in R as ->.
        eexists. split_and!; [done|apply extends_record|done| |done].
        apply read_tidy. by left.
    + exists []. split_and!; try done; first [apply extends_refl|apply tidy_nil].
  - destruct r0 as [u|err].
    + destruct (os.ReadFile _ w0) as [[out|err] wr] eqn:R; cbn [snd].
      * apply ReadFile_Ok in R as (_ & _ & ->).
        eexists. split_and!; [done|apply extends_record|done| |done].
        apply read_tidy. by right.
      * apply ReadFile_Err in R as ->.
        eexists. split_and!; [done|apply extends_record|done| |done].
        apply read_tidy. by right.
    + exists []. split_and!; try done; first [apply extends_refl|apply tidy_nil].
Qed.

Lemma serve_run dir q w :
  exists evs, extends w (serve dir q w) evs /\ tidy dir evs.
Proof.
  destruct (serve_after_prepareDir dir q w) as (r0 & w0 & tail & E0 & X & _ & T & _).
  destruct (prepareDir_runs _ _ _ _ E0) as (evs & X0 & R & _).
  exists (evs ++ tail). split; [by eapply extends_trans|].
  apply tidy_app; [by eapply run_tidy|done].
Qed.

Lemma serve_all_cons dir q qs w :
  serve_all dir (q :: qs) w = serve_all dir qs (serve dir q w).
Proof. done. Qed.

Lemma serve_all_snoc dir qs q w :
  serve_all dir (qs ++ [q]) w = serve dir q (serve_all dir qs w).
Proof. unfold serve_all. by rewrite fold_left_app. Qed.

Lemma serve_all_run dir qs w :
  exists evs, extends w (serve_all dir qs w) evs /\ tidy dir evs.
Proof.
  revert w. induction qs as [|q qs IH]; intros w.
  - exists []. split; [apply extends_refl|apply tidy_nil].
  - rewrite serve_all_cons.
    destruct (serve_run dir q w) as (evs1 & X1 & T1).
    destruct (IH (serve dir q w)) as (evs2 & X2 & T2).
    exists (evs1 ++ evs2). split; [by eapply extends_trans|by apply tidy_app].
Qed.

(** The [Stat] calls of a sequence of requests all go through when those
    of its first request and those of the rest do. *)
Lemma stats_succeed_cons dir q qs w :
  stats_succeed dir (q :: qs) w <->
  failed_stats (since w (serve dir q w)) = [] /\
  stats_succeed dir qs (serve dir q w).
Proof.
  unfold stats_succeed. rewrite serve_all_cons.
  destruct (serve_run dir q w) as (evs1 & X1 & _).
  destruct (serve_all_run dir qs (serve dir q w)) as (evs2 & X2 & _).
  rewrite (extends_since _ _ _ X1), (extends_since _ _ _ X2).
  rewrite (extends_since _ _ _ (extends_trans _ _ _ _ _ X1 X2)).
  rewrite failed_stats_app. split.
  - by intros [-> ->]%app_eq_nil.
  - by intros [-> ->].
Qed.

Lemma stats_succeed_snoc dir qs q w :
  stats_succeed dir (qs ++ [q]) w <->
  stats_succeed dir qs w /\
  failed_stats (since (serve_all dir qs w)
                      (serve dir q (serve_all dir qs w))) = [].
Proof.
  unfold stats_succeed. rewrite serve_all_snoc.
  destruct (serve_all_run dir qs w) as (evs1 & X1 & _).
  destruct (serve_run dir q (serve_all dir qs w)) as (evs2 & X2 & _).
  rewrite (extends_since _ _ _ X1), (extends_since _ _ _ X2).
  rewrite (extends_since _ _ _ (extends_trans _ _ _ _ _ X1 X2)).
  rewrite failed_stats_app. split.
  - by intros [-> ->]%app_eq_nil.
  - by intros [-> ->].
Qed.

(** The [Stat] of a request is that of its bootstrap. *)
Lemma serve_stats dir q w :
  failed_stats (since w (serve dir q w)) = [] ->
  failed_stats (since w (snd (prepareDir dir w))) = [].
Proof.
  destruct q; cbn [serve]; [done| |].
  - apply (GetPrivateKey_stats dir w (fst (GetPrivateKey dir w))).
    apply surjective_pairing.
  - apply (GetPublicKey_stats dir w (fst (GetPublicKey dir w))).
    apply surjective_pairing.
Qed.

(** On a settled directory a request whose [Stat] goes through changes
    nothing on disk. *)
Lemma serve_settled dir q w :
  settled dir w ->
  failed_stats (since w (serve dir q w)) = [] ->
  fs (serve dir q w) = fs w.
Proof.
  intros [[mode D] [n P]] N. apply serve_stats in N.
  destruct (serve_after_prepareDir dir q w) as (r0 & w0 & tail & E0 & X & F & _).
  rewrite E0 in N. cbn [snd] in N.
  destruct (prepareDir_present _ _ _ _ _ _ D P E0 N) as (F0 & _). congruence.
Qed.

Lemma serve_all_settled dir qs w :
  settled dir w ->
  stats_succeed dir qs w ->
  fs (serve_all dir qs w) = fs w /\
  generations (since w (serve_all dir qs w)) = 0%nat /\
  writes (since w (serve_all dir qs w)) = [].
Proof.
  intros S N. split.
  - revert w S N. induction qs as [|q qs IH]; intros w S N; [done|].
    apply stats_succeed_cons in N as [N1 N2]. rewrite serve_all_cons.
    pose proof (serve_settled dir q w S N1) as F1.
    rewrite IH; [done| |done]. unfold settled in *. by rewrite F1.
  - destruct (serve_all_run dir qs w) as (evs & X & _ & G & W).
    unfold stats_succeed in N. rewrite (extends_since _ _ _ X) in *.
    rewrite N in G, W. split; [done|]. by apply nil_length_inv, Nat.le_0_r.
Qed.

(** A retrieval that answers has read its answer from disk. *)
Lemma reply_PrivateKey_Ok dir w out :
  reply dir PrivateKey w = Ok out ->
  exists u w0 mode,
    prepareDir dir w = (Ok u, w0) /\
    fs w0 !! privateKeyFile dir = Some (File mode out).
Proof.
  unfold reply, GetPrivateKey. fold (privateKeyFile dir).
  destruct (prepareDir dir w) as [[u|err] w0] eqn:E0; [|done].
  destruct (os.ReadFile _ w0) as [[out'|err] wr] eqn:R; [|done].
  intros [= ->]. apply ReadFile_Ok in R as (_ & (mode & L) & _). eauto.
Qed.

Lemma reply_PublicKey_Ok dir w out :
  reply dir PublicKey w = Ok out ->
  exists u w0 mode,
    prepareDir dir w = (Ok u, w0) /\
    fs w0 !! publicKeyFile dir = Some (File mode out).
Proof.
  unfold reply, GetPublicKey. fold (publicKeyFile dir).
  destruct (prepareDir dir w) as [[u|err] w0] eqn:E0; [|done].
  destruct (os.ReadFile _ w0) as [[out'|err] wr] eqn:R; [|done].
  intros [= ->]. apply ReadFile_Ok in R as (_ & (mode & L) & _). eauto.
Qed.

(** A bootstrap that succeeds leaves the directory settled. *)
Lemma prepareDir_Ok_settled dir w u w1 :
  key_paths_distinct dir ->
  prepareDir dir w = (Ok u, w1) -> settled dir w1.
Proof.
  intros (Nd & Pd & NP) E. unfold prepareDir in E.
  fold (privateKeyFile dir) (publicKeyFile dir) in E.
  destruct (os.MkdirAll _ _ w) as [[?|?] wa] eqn:Ea; [|done].
  apply MkdirAll_Ok in Ea as (_ & NF & ->).
  pose proof (made_lookup dir (octal [7; 5; 5]) w NF) as D.
  destruct (os.Stat _ _) as [[n|?] wb] eqn:Eb.
  { apply Stat_Ok in Eb as (_ & P & ->). simplify_eq. split; eauto. }
  apply Stat_failed in Eb as (-> & ->). unfold searched in E.
  destruct (rsaKeyGen _) as [[[privateKey pubKey]|?] wc] eqn:Ec; [|done].
  apply rsaKeyGen_Ok in Ec as (_ & -> & _).
  destruct (os.WriteFile _ _ _ _) as [[?|?] wd] eqn:Ed; [|done].
  pose proof (WriteFile_other _ _ _ _ _ _ dir Ed) as Od.
  destruct (os.WriteFile _ _ _ wd) as [[?|?] we] eqn:Ee; [|done].
  pose proof (WriteFile_other _ _ _ _ _ _ dir Ee) as Oe.
  apply WriteFile_Ok in Ee as (_ & files & S & Ew). simplify_eq.
  split.
  - eexists. rewrite Oe, Od by done. cbn [fs record]. exact D.
  - cbn [fs record set_fs]. unfold os.store in S.
    repeat case_match; simplify_eq; by rewrite lookup_insert_eq.
Qed.

Lemma reply_Ok_settled dir q w out :
  key_paths_distinct dir ->
  reply dir q w = Ok out -> settled dir (serve dir q w).
Proof.
  intros K R.
  destruct (serve_after_prepareDir dir q w) as (r0 & w0 & tail & E0 & _ & F & _).
  assert (exists u, r0 = Ok u) as [u ->].
  { destruct q; cbn [reply] in R.
    - rewrite E0 in R. cbn [fst] in R. destruct r0; [eauto|done].
    - apply reply_PrivateKey_Ok in R as (u & w0' & _ & E & _).
      rewrite E0 in E. simplify_eq. eauto.
    - apply reply_PublicKey_Ok in R as (u & w0' & _ & E & _).
      rewrite E0 in E. simplify_eq. eauto. }
  unfold settled. rewrite F. by apply (prepareDir_Ok_settled _ _ _ _ K E0).
Qed.

(** On a settled directory, a request whose [Stat] goes through and that
    answers has found its answer on disk. *)
Lemma settled_reply dir q w out :
  settled dir w ->
  failed_stats (since w (serve dir q w)) = [] ->
  reply dir q w = Ok out -> on_disk dir q w out.
Proof.
  intros [[dmode D] [n P]] N R. apply serve_stats in N.
  destruct q; cbn [on_disk].
  - cbn [reply] in R. by destruct (fst (prepareDir dir w)); simplify_eq.
  - apply reply_PrivateKey_Ok in R as (u & w0 & mode & E0 & L).
    rewrite E0 in N. cbn [snd] in N.
    destruct (prepareDir_present _ _ _ _ _ _ D P E0 N) as (F0 & _).
    rewrite F0 in L. eauto.
  - apply reply_PublicKey_Ok in R as (u & w0 & mode & E0 & L).
    rewrite E0 in N. cbn [snd] in N.
    destruct (prepareDir_present _ _ _ _ _ _ D P E0 N) as (F0 & _).
    rewrite F0 in L. eauto.
Qed.

(** The same after any requests whose [Stat] calls went through. *)
Lemma settled_answer dir qs q w out :
  settled dir w ->
  stats_succeed dir (qs ++ [q]) w ->
  reply dir q (serve_all dir qs w) = Ok out -> on_disk dir q w out.
Proof.
  intros S [N1 N2]%stats_succeed_snoc R.
  destruct (serve_all_settled dir qs w S N1) as (F & _).
  assert (settled dir (serve_all dir qs w)) as S'
    by (unfold settled in *; by rewrite F).
  pose proof (settled_reply _ _ _ _ S' N2 R) as O.
  destruct q; cbn [on_disk] in *; [done|by rewrite <- F..].
Qed.

(** On a settled directory, in an environment that makes no call fail,
    the bootstrap of a retrieval goes through and leaves the read. *)
Lemma settled_calm_prepareDir dir w :
  settled dir w -> calm w ->
  exists w0, prepareDir dir w = (Ok tt, w0) /\ fs w0 = fs w /\ calm w0 /\
             failed_stats (since w w0) = [].
Proof.
  intros [[dmode D] [n P]] C.
  pose proof (found_extends dir w) as X.
  eexists. split_and!.
  - by eapply prepareDir_found.
  - done.
  - by eapply calm_extends.
  - by rewrite (extends_since _ _ _ X).
Qed.

Lemma calm_serve_all dir qs w : calm w -> calm (serve_all dir qs w).
Proof.
  revert w. induction qs as [|q qs IH]; intros w C; [done|].
  rewrite serve_all_cons.
  apply IH. destruct (serve_run dir q w) as (evs & X & _).
  by eapply calm_extends.
Qed.

(** Where no call is made to fail, no [Stat] of a settled directory
    fails. *)
Lemma settled_calm_serve dir q w :
  settled dir w -> calm w -> failed_stats (since w (serve dir q w)) = [].
Proof.
  intros S C.
  destruct (settled_calm_prepareDir _ _ S C) as (w0 & E0 & _ & _ & N0).
  destruct (serve_after_prepareDir dir q w) as (r0 & w1 & tail & E1 & X & _ & _ & Nt).
  rewrite E0 in E1. simplify_eq.
  destruct (prepareDir_extends _ _ _ _ E0) as [evs X0].
  rewrite (extends_since _ _ _ X0) in N0.
  rewrite (extends_since _ _ _ (extends_trans _ _ _ _ _ X0 X)).
  by rewrite failed_stats_app, N0, Nt.
Qed.

Lemma settled_calm_stats dir qs w :
  settled dir w -> calm w -> stats_succeed dir qs w.
Proof.
  revert w. induction qs as [|q qs IH]; intros w S C.
  - unfold stats_succeed, since. cbn. by rewrite drop_all.
  - apply stats_succeed_cons.
    pose proof (settled_calm_serve dir q w S C) as N. split; [done|].
    apply IH.
    + unfold settled in *. by rewrite (serve_settled dir q w S N).
    + destruct (serve_run dir q w) as (evs & X & _). by eapply calm_extends.
Qed.


(** X1. Whatever its outcome, and whatever the environment does,
    [prepareDir] makes its calls in one order: it asks for the directory,
    looks for the private-key file, draws a 2048-bit key, writes the
    public-key file, writes the private-key file, and stops at any point
    of that sequence.  So a run draws at most one key, writes at most two
    files, and writes nothing before it has drawn the key. *)
Theorem bootstrap_calls_in_order dir w r w1 :
  prepareDir dir w = (r, w1) ->
  map ev_call (since w w1)
  `prefix_of` bootstrap_calls dir (public_text w) (private_pem (drawn w)) /\
  (generations (since w w1) <= 1)%nat /\
  (length (writes (since w w1)) <= 2)%nat /\
  (writes (since w w1) <> [] -> generations (since w w1) = 1%nat).
Proof.
  intros E. destruct (prepareDir_runs _ _ _ _ E) as (evs & X & R & _).
  rewrite (extends_since _ _ _ X).
  assert (forall p, ssh_NewPublicKey (rsa_Public (drawn w)) = Ok p ->
                    public_text w = ssh_MarshalAuthorizedKey p) as Pt.
  { intros p P. unfold public_text. by rewrite P. }
  destruct R as [err| |e|cause P|p e P|p e P|p P];
    try rewrite (Pt _ P);
    (split; [by eexists|];
     split_and!;
       [ cbv; lia | cbv; lia
       | intros N; first [reflexivity | by destruct N] ]).
Qed.

(** X2. The package names no path of its own making: after any number of
    bootstraps and retrievals, in any order and whatever their outcomes,
    every call it has made to the environment asks for the directory with
    mode 0755, looks for the private-key file, asks for a 2048-bit key,
    writes the public-key file with 0644 or the private-key file with
    0600, or reads one of the two key files.  (What is behind those paths
    is the business of the file system.) *)
Theorem requests_name_the_key_files dir qs w :
  forallb (fun e => own_call dir (ev_call e)) (since w (serve_all dir qs w))
  = true.
Proof.
  destruct (serve_all_run dir qs w) as (evs & X & O & _).
  by rewrite (extends_since _ _ _ X).
Qed.

Lemma serve_all_counts dir qs w :
  generations (since w (serve_all dir qs w))
  = length (failed_stats (since w (serve_all dir qs w))) /\
  (length (writes (since w (serve_all dir qs w)))
   <= 2 * length (failed_stats (since w (serve_all dir qs w))))%nat.
Proof.
  destruct (serve_all_run dir qs w) as (evs & X & _ & G & W).
  by rewrite (extends_since _ _ _ X).
Qed.

(** X12. Keys are drawn on failed [Stat] calls, and only then: over any
    sequence of requests, whatever their outcomes, the package asks the
    random source for a key exactly as many times as [os.Stat] returned an
    error, be it that the private-key file is missing or that the call
    itself failed; and it attempts at most two writes for each.  So
    requests whose [Stat] calls all go through draw no key and write no
    file. *)
Theorem keys_follow_failed_stats dir qs w :
  let evs := since w (serve_all dir qs w) in
  generations evs = length (failed_stats evs) /\
  (length (writes evs) <= 2 * length (failed_stats evs))%nat /\
  (stats_succeed dir qs w -> generations evs = 0%nat /\ writes evs = []).
Proof.
  intros evs. destruct (serve_all_counts dir qs w) as (G & W).
  fold evs in G, W. split_and!; [done..|].
  unfold stats_succeed. fold evs. intros N. rewrite N in G, W.
  split; [done|]. by apply nil_length_inv, Nat.le_0_r.
Qed.

(** X3. A settled directory is not touched as long as [Stat] goes
    through: once the directory exists and something is at the path of
    its private-key file, a sequence of requests none of whose [Stat]
    calls fails draws no key, writes no file and changes nothing on disk;
    and a further request whose [Stat] goes through and that answers
    returns the content of the file that was on disk from the start.  No
    [Stat] fails where the environment makes no call fail. *)
Theorem settled_directory_is_never_touched dir qs w :
  settled dir w ->
  (calm w -> stats_succeed dir qs w) /\
  (stats_succeed dir qs w ->
   let w' := serve_all dir qs w in
   fs w' = fs w /\
   generations (since w w') = 0%nat /\
   writes (since w w') = [] /\
   (forall q out,
      stats_succeed dir (qs ++ [q]) w ->
      reply dir q w' = Ok out -> on_disk dir q w out)).
Proof.
  intros S. split; [by apply settled_calm_stats|].
  intros N w'. destruct (serve_all_settled dir qs w S N) as (F & G & W).
  split_and!; [done..|].
  intros q out Nq R. by eapply settled_answer.
Qed.

(** X4. After one request that succeeded, be it a bootstrap or a
    retrieval, later requests whose [Stat] calls go through draw no key,
    write no file and change nothing on disk, and any two such requests
    for the same key that answer return the same text. *)
Theorem one_success_settles dir q w out :
  key_paths_distinct dir ->
  reply dir q w = Ok out ->
  let w1 := serve dir q w in
  (forall qs,
     stats_succeed dir qs w1 ->
     fs (serve_all dir qs w1) = fs w1 /\
     generations (since w1 (serve_all dir qs w1)) = 0%nat /\
     writes (since w1 (serve_all dir qs w1)) = []) /\
  (forall q' qs qs' a b,
     stats_succeed dir (qs ++ [q']) w1 ->
     stats_succeed dir (qs' ++ [q']) w1 ->
     reply dir q' (serve_all dir qs w1) = Ok a ->
     reply dir q' (serve_all dir qs' w1) = Ok b -> a = b).
Proof.
  intros K R w1.
  pose proof (reply_Ok_settled _ _ _ _ K R) as S. fold w1 in S. split.
  - intros qs N. by apply serve_all_settled.
  - intros q' qs qs' a b Na Nb Ra Rb.
    pose proof (settled_answer _ _ _ _ _ S Na Ra) as Oa.
    pose proof (settled_answer _ _ _ _ _ S Nb Rb) as Ob.
    destruct q'; cbn [on_disk] in *.
    + congruence.
    + destruct Oa as [ma La], Ob as [mb Lb]. congruence.
    + destruct Oa as [ma La], Ob as [mb Lb]. congruence.
Qed.

(** X5. A bootstrap that was cut short is not repaired: where the
    private-key file is there and the public-key file is not, requests
    whose [Stat] calls go through never create the public-key file, and a
    [GetPublicKey] whose [Stat] goes through fails, under the label of the
    public-key read when no call is made to fail. *)
Theorem missing_public_key_is_not_restored dir qs w :
  settled dir w ->
  fs w !! publicKeyFile dir = None ->
  stats_succeed dir qs w ->
  let w' := serve_all dir qs w in
  fs w' !! publicKeyFile dir = None /\
  (stats_succeed dir (qs ++ [PublicKey]) w ->
   exists err, reply dir PublicKey w' = Err err) /\
  (calm w ->
   reply dir PublicKey w'
   = Err (Wrap (PathError "open" (publicKeyFile dir) "no such file or directory")
               "read public ssh key")).
Proof.
  intros S B N w'. destruct (serve_all_settled dir qs w S N) as (F & _).
  fold w' in F.
  assert (settled dir w') as S' by (unfold settled in *; by rewrite F).
  split_and!.
  - by rewrite F.
  - intros Nq. destruct (reply dir PublicKey w') as [out|err] eqn:R; [|eauto].
    destruct (settled_answer _ _ _ _ _ S Nq R) as [mode L]. congruence.
  - intros C. assert (calm w') as C' by by apply calm_serve_all.
    destruct (settled_calm_prepareDir _ _ S' C') as (w0 & E0 & F0 & C0 & _).
    unfold reply, GetPublicKey. fold (publicKeyFile dir). rewrite E0.
    unfold os.ReadFile. rewrite (C0 _), F0, F, B. done.
Qed.

(** X6. No failure hides its cause: when a call of the environment fails
    with some error and the bootstrap or a retrieval gives up on it, the
    text of the error returned is the text of that error behind one of the
    stage labels of the package (or behind none, for the directory). *)
Theorem errors_keep_the_cause dir q w err cause :
  reply dir q w = Err err ->
  last (since w (serve dir q w)) ≫= ev_err = Some cause ->
  exists label, label ∈ stage_prefixes /\ Error err = label +:+ Error cause.
Proof.
  assert (forall w1, prepareDir dir w = (Err err, w1) ->
            last (since w w1) ≫= ev_err = Some cause ->
            exists label, label ∈ stage_prefixes /\
                          Error err = label +:+ Error cause) as Prep.
  { intros w1 E L.
    apply prepareDir_Err_stage in E as (w0 & evs & c & outcome & X & -> & G).
    destruct (last_since c outcome _ _ _ X) as [_ L']. rewrite L' in L.
    clear L'. unfold stage_prefixes.
    destruct G as [|cause' outcome -> C|data e ->|data e ->];
      cbn in L; simplify_eq.
    - exists "". split; [repeat constructor|reflexivity].
    - rewrite (C _ eq_refl).
      exists "generate key pair: generate private key: ".
      split; [repeat constructor|reflexivity].
    - exists "write public ssh key: ". split; [repeat constructor|reflexivity].
    - exists "write private ssh key: ". split; [repeat constructor|reflexivity]. }
  assert (forall name w0 e wr,
            os.ReadFile name w0 = (Err e, wr) ->
            forall evs, extends w w0 evs ->
            last (since w wr) ≫= ev_err = Some cause ->
            exists label, label ∈ stage_prefixes /\
              Error (Wrap e "read public ssh key") = label +:+ Error cause)
    as Read.
  { intros name w0 e wr R evs X L. apply ReadFile_Err in R as ->.
    destruct (last_since (ReadFile name) (Some e) _ _ _ X) as [_ L'].
    rewrite L' in L. cbn in L. simplify_eq.
    exists "read public ssh key: ". split; [|reflexivity].
    unfold stage_prefixes. repeat constructor. }
  destruct q; unfold reply, serve, GetPrivateKey, GetPublicKey.
  - destruct (prepareDir dir w) as [[u|e0] w0] eqn:E0; [done|].
    cbn [fst snd]. intros [= ->]. by apply Prep.
  - destruct (prepareDir dir w) as [[u|e0] w0] eqn:E0.
    + destruct (prepareDir_extends _ _ _ _ E0) as [evs X].
      destruct (os.ReadFile _ w0) as [[o|e] wr] eqn:R; [done|].
      cbn [fst snd]. intros [= <-]. by eapply Read.
    + cbn [fst snd]. intros [= ->]. by apply Prep.
  - destruct (prepareDir dir w) as [[u|e0] w0] eqn:E0.
    + destruct (prepareDir_extends _ _ _ _ E0) as [evs X].
      destruct (os.ReadFile _ w0) as [[o|e] wr] eqn:R; [done|].
      cbn [fst snd]. intros [= <-]. by eapply Read.
    + cbn [fst snd]. intros [= ->]. by apply Prep.
Qed.

End runs.

(** ** Keys that are there but no good *)

Section bad_keys.
Context `{GoLib}.

Lemma settled_calm_PrivateKey dir w mode content :
  settled dir w -> calm w ->
  fs w !! privateKeyFile dir = Some (File mode content) ->
  reply dir PrivateKey w = Ok content.
Proof.
  intros S C P.
  destruct (settled_calm_prepareDir _ _ S C) as (w0 & E0 & F0 & C0 & _).
  unfold reply, GetPrivateKey. fold (privateKeyFile dir). rewrite E0.
  rewrite (ReadFile_calm _ _ mode content); [done|apply C0|by rewrite F0].
Qed.

(** X7. [NewClient] and [ConfigFromKeyBytes], outcome by outcome.  A
    connection comes back exactly when the key parses and the dialer,
    asked for [tcp] at the address with the configuration built from the
    key, returns it.  Key bytes that do not parse give the parse error
    under the label of the parse, whatever the dialer would do; a failed
    dial gives a new error that carries the address and the text of the
    dialer's error, and is no wrapper of it.  A configuration is never
    returned without its one public-key method. *)
Theorem NewClient_outcomes (Conn : Type)
    (dial : string -> string -> ssh_ClientConfig -> result Conn) addr keyBytes :
  (forall conn,
     NewClient dial addr keyBytes = Ok conn <->
     exists config, ConfigFromKeyBytes keyBytes = Ok config /\
                    dial "tcp" addr config = Ok conn) /\
  (forall e,
     ssh_ParsePrivateKey keyBytes = Err e ->
     ConfigFromKeyBytes keyBytes = Err (Wrap e "parse private key") /\
     NewClient dial addr keyBytes = Err (Wrap e "parse private key")) /\
  (forall config e,
     ConfigFromKeyBytes keyBytes = Ok config ->
     dial "tcp" addr config = Err e ->
     exists err,
       NewClient dial addr keyBytes = Err err /\ is_wrapped err = false /\
       Error err = "dial to " +:+ addr +:+ " failed: " +:+ Error e) /\
  (forall config,
     ConfigFromKeyBytes keyBytes = Ok config ->
     exists signer,
       ssh_ParsePrivateKey keyBytes = Ok signer /\
       Auth config = [ssh_PublicKeys [signer]] /\ User config = "devpod").
Proof.
  unfold NewClient, ConfigFromKeyBytes.
  destruct (ssh_ParsePrivateKey keyBytes) as [signer|e0];
    cbn [Auth User HostKeyCallback app]; split_and!.
  - intros conn. split.
    + destruct (dial _ _ _) as [c|e] eqn:D; [|done].
      intros [= ->]. eauto.
    + intros (config & [= <-] & D). by rewrite D.
  - done.
  - intros config e [= <-] D. rewrite D. eauto.
  - intros config [= <-]. eauto.
  - intros conn. split; [done|]. by intros (config & ? & _).
  - by intros e [= ->].
  - done.
  - done.
Qed.

(** X8. Presence, not validity: a private-key file whose content does not
    parse is not replaced as long as [Stat] goes through.  After any
    sequence of requests none of whose [Stat] calls fails the file holds
    what it held; a retrieval whose [Stat] goes through and that answers
    hands out that content, which it does whenever no call is made to
    fail; and [NewClient] turns it down with the parse error, whatever the
    dialer. *)
Theorem unparsable_key_is_handed_out dir qs w dmode mode content e :
  fs w !! dir = Some (Dir dmode) ->
  fs w !! privateKeyFile dir = Some (File mode content) ->
  ssh_ParsePrivateKey content = Err e ->
  stats_succeed dir qs w ->
  let w' := serve_all dir qs w in
  fs w' !! privateKeyFile dir = Some (File mode content) /\
  generations (since w w') = 0%nat /\
  (calm w -> reply dir PrivateKey w' = Ok content) /\
  (forall out,
     stats_succeed dir (qs ++ [PrivateKey]) w ->
     reply dir PrivateKey w' = Ok out ->
     out = content /\
     forall (Conn : Type)
            (dial : string -> string -> ssh_ClientConfig -> result Conn) addr,
       NewClient dial addr out = Err (Wrap e "parse private key")).
Proof.
  intros D P B N w'.
  assert (settled dir w) as S by (split; eauto).
  destruct (serve_all_settled dir qs w S N) as (F & G & _).
  fold w' in F, G.
  assert (settled dir w') as S' by (unfold settled in *; by rewrite F).
  split_and!.
  - by rewrite F.
  - done.
  - intros C. apply (settled_calm_PrivateKey _ _ mode); [done| |by rewrite F].
    by apply calm_serve_all.
  - intros out Nq R. destruct (settled_answer _ _ _ _ _ S Nq R) as [m L].
    rewrite P in L. simplify_eq. split; [done|].
    intros Conn dial addr. unfold NewClient, ConfigFromKeyBytes. by rewrite B.
Qed.


End bad_keys.

(** ** A bootstrapped key is a key the client can use *)

Section usable_keys.
Context `{GoLib}.

Hypothesis pem_roundtrip : forall label der,
  pem_label_ok label = true ->
  pem_Decode (pem_EncodeToMemory
                {| Type_ := label; Headers := []; Bytes := der |})
  = Some ({| Type_ := label; Headers := []; Bytes := der |}, "").

Hypothesis pkcs1_roundtrip : forall key,
  x509_ParsePKCS1PrivateKey (x509_MarshalPKCS1PrivateKey key) = Ok key.

Hypothesis ParsePrivateKey_rsa : forall pemBytes der rest key pub,
  pem_Decode pemBytes
  = Some ({| Type_ := "RSA PRIVATE KEY"; Headers := []; Bytes := der |}, rest) ->
  x509_ParsePKCS1PrivateKey der = Ok key ->
  ssh_NewPublicKey (rsa_Public key) = Ok pub ->
  exists signer, ssh_ParsePrivateKey pemBytes = Ok signer /\
                 ssh_Signer_PublicKey signer = pub.


End usable_keys.

(** ** The client handle of the delete command *)

Section handles.
Import process cmd handle.

(** The three ways a run of the command can go. *)
Lemma RunE_cases args w :
  let '(r, w') := RunE NewDeleteCmd args w in
  match environ w with
  | Err err => r = Err err /\ since w w' = []
  | Ok options =>
      let client := {| project := Project options; zone := Zone options |} in
      match answers w (clock w) with
      | Some err =>
          r = Err err /\
          since w w' = [Ev (Open (Project options) (Zone options)) (Some err)]
      | None =>
          r = match answers w (clock w + 1) with
              | Some err => Err err
              | None => Ok tt
              end /\
          since w w' = [Ev (Open (Project options) (Zone options)) None;
                        Ev (Compute client Delete (MachineID options))
                           (answers w (clock w + 1));
                        Ev (Release client) (answers w (clock w + 2))]
      end
  end.
Proof.
  unfold RunE, NewDeleteCmd, options.FromEnv, Run, clock.
  destruct (environ w) as [options|err0] eqn:Env.
  2: { split; [done|]. unfold since. by rewrite drop_all. }
  unfold gcloud.NewClient, gcloud.Delete, gcloud.Close, invoke.
  destruct (answers w (length (calls w))) as [err0|] eqn:A0.
  { split; [done|]. unfold since. cbn [calls record].
    by rewrite drop_app_length. }
  cbn [calls record answers]. rewrite !length_app. cbn [length].
  assert (forall e1 r1 e2 r2, since w (record e2 r2
            (record e1 r1 (record (Open (Project options) (Zone options)) None w)))
          = [Ev (Open (Project options) (Zone options)) None;
             Ev e1 r1; Ev e2 r2]) as S.
  { intros. unfold since. cbn [calls record].
    rewrite <- !app_assoc. by rewrite drop_app_length. }
  destruct (answers w (length (calls w) + 1)%nat) as [e1|] eqn:A1;
    cbn [calls record answers]; rewrite !length_app; cbn [length];
    rewrite <- Nat.add_assoc; cbn [Nat.add];
    destruct (answers w (length (calls w) + 2)%nat) as [e2|] eqn:A2;
    rewrite S; done.
Qed.

(** X11. The command releases what it obtained: a run releases the client
    exactly when it obtained one, once, and as its last call, also when
    the [Delete] call failed; the only operation it ever asks of the
    compute API is [Delete]; and what the release answers never shows in
    the result of the command. *)
Theorem client_is_released args w :
  let '(r, w') := RunE NewDeleteCmd args w in
  length (releases (since w w')) = length (obtained (since w w')) /\
  (length (obtained (since w w')) <= 1)%nat /\
  (obtained (since w w') <> [] ->
   exists client outcome, last (since w w') = Some (Ev (Release client) outcome)) /\
  (forall e, e ∈ compute_calls (since w w') ->
     exists client machineID, ev_call e = Compute client Delete machineID) /\
  (forall a,
     (forall n, n <> (clock w + 2)%nat -> a n = answers w n) ->
     fst (RunE NewDeleteCmd args (with_answers a w)) = r).
Proof.
  pose proof (RunE_cases args w) as C.
  destruct (RunE NewDeleteCmd args w) as [r w'].
  assert (forall a,
            (forall n, n <> (clock w + 2)%nat -> a n = answers w n) ->
            fst (RunE NewDeleteCmd args (with_answers a w)) = r) as Same.
  { intros a Ha. pose proof (RunE_cases args (with_answers a w)) as C'.
    destruct (RunE NewDeleteCmd args (with_answers a w)) as [r2 w2].
    cbn [fst]. cbn [environ answers with_answers] in C'.
    change (clock (with_answers a w)) with (clock w) in C'.
    destruct (environ w) as [options|err0].
    2: { destruct C as [-> _], C' as [-> _]. done. }
    rewrite !Ha in C' by lia.
    destruct (answers w (clock w)) as [err0|].
    { destruct C as [-> _], C' as [-> _]. done. }
    destruct C as [-> _], C' as [-> _]. done. }
  destruct (environ w) as [options|err0];
    [destruct (answers w (clock w)) as [err0|]|]; destruct C as [_ ->].
  - split_and!; [reflexivity | cbv; lia | | | exact Same].
    + intros N. by destruct N.
    + intros e In. by apply elem_of_nil in In.
  - split_and!; [reflexivity | cbv; lia | | | exact Same].
    + intros _. by eexists _, _.
    + intros e In. apply list_elem_of_singleton in In as ->. by eexists _, _.
  - split_and!; [reflexivity | cbv; lia | | | exact Same].
    + intros N. by destruct N.
    + intros e In. by apply elem_of_nil in In.
Qed.

End handles.

(** ** The sample libraries keep the promises *)

Section sample_laws.
Import sample.

Lemma label_char_not_LF c : pem_label_char c = true -> Ascii.eqb c LF = false.
Proof. destruct c as [[] [] [] [] [] [] [] []]; by vm_compute. Qed.

Lemma cut_label label der :
  pem_label_ok label = true -> cut (label +:+ String LF der) = Some (label, der).
Proof.
  induction label as [|c label IH]; cbn [pem_label_ok].
  - intros _. change (cut (String LF der) = Some ("", der)).
    cbn [cut]. by rewrite Ascii.eqb_refl.
  - intros [C L]%andb_true_iff.
    change (cut (String c (label +:+ String LF der)) = Some (String c label, der)).
    cbn [cut]. rewrite (label_char_not_LF _ C). by rewrite (IH L).
Qed.

Lemma sample_pem_roundtrip label der :
  pem_label_ok label = true ->
  @pem_Decode lib (@pem_EncodeToMemory lib
                     {| Type_ := label; Headers := []; Bytes := der |})
  = Some ({| Type_ := label; Headers := []; Bytes := der |}, "").
Proof.
  intros L. cbn [pem_Decode pem_EncodeToMemory lib]. unfold decode, encode.
  cbn [Type_ Bytes]. by rewrite cut_label.
Qed.

Lemma sample_pkcs1_roundtrip (key : @rsa_PrivateKey lib) :
  @x509_ParsePKCS1PrivateKey lib (@x509_MarshalPKCS1PrivateKey lib key) = Ok key.
Proof. done. Qed.

Lemma sample_ParsePrivateKey_rsa pemBytes der rest
    (key : @rsa_PrivateKey lib) (pub : @ssh_PublicKey lib) :
  @pem_Decode lib pemBytes
  = Some ({| Type_ := "RSA PRIVATE KEY"; Headers := []; Bytes := der |}, rest) ->
  @x509_ParsePKCS1PrivateKey lib der = Ok key ->
  @ssh_NewPublicKey lib (@rsa_Public lib key) = Ok pub ->
  exists signer, @ssh_ParsePrivateKey lib pemBytes = Ok signer /\
                 @ssh_Signer_PublicKey lib signer = pub.
Proof.
  cbn [pem_Decode x509_ParsePKCS1PrivateKey ssh_NewPublicKey rsa_Public
       ssh_ParsePrivateKey ssh_Signer_PublicKey lib].
  intros D [= <-] [= <-]. exists der. unfold parse_private_key. by rewrite D.
Qed.

Lemma append_inj (s a b : string) : s +:+ a = s +:+ b -> a = b.
Proof.
  induction s as [|c s IH]; [done|].
  change (String c (s +:+ a) = String c (s +:+ b) -> a = b).
  intros [= E]. by apply IH.
Qed.

Lemma append_grows (s a : string) : s +:+ a = s -> a = "".
Proof.
  induction s as [|c s IH]; [done|].
  change (String c (s +:+ a) = String c s -> a = "").
  intros [= E]. by apply IH.
Qed.

(** Joining with a slash keeps every directory and its two key files
    apart. *)
Lemma sample_paths_distinct_everywhere d : @key_paths_distinct lib d.
Proof.
  unfold key_paths_distinct, privateKeyFile, publicKeyFile.
  cbn [filepath_Join lib]. split_and!.
  - intros E%append_grows. discriminate E.
  - intros E%append_grows. discriminate E.
  - intros E%append_inj. discriminate E.
Qed.

Lemma sample_paths_distinct : @key_paths_distinct lib dir.
Proof. apply sample_paths_distinct_everywhere. Qed.

End sample_laws.

(** ** The theorems at work on sample environments *)

(** C1 on a directory whose private-key file holds text that is no key,
    where no call fails: nothing is generated or written, and the text is
    what comes back. *)
Lemma existing_private_key_is_kept_witness :
  let w := sample.with_private in
  let w1 := snd (@prepareDir sample.lib sample.dir w) in
  let r2 := fst (@GetPrivateKey sample.lib sample.dir w1) in
  let w2 := snd (@GetPrivateKey sample.lib sample.dir w1) in
  fs w !! sample.dir = Some (Dir (octal [7; 0; 0])) /\
  fs w !! sample.private_path = Some (File (octal [6; 0; 0]) "not a key at all") /\
  failed_stats (since w w1) = [] /\ failed_stats (since w1 w2) = [] /\
  generations (since w w1) = 0%nat /\ writes (since w w1) = [] /\ fs w1 = fs w /\
  generations (since w1 w2) = 0%nat /\ writes (since w1 w2) = [] /\
  r2 = Ok "not a key at all".
Proof.
  intros w w1 r2 w2.
  assert (fs w !! sample.dir = Some (Dir (octal [7; 0; 0]))) as D
    by (vm_compute; reflexivity).
  assert (fs w !! @privateKeyFile sample.lib sample.dir
          = Some (File (octal [6; 0; 0]) "not a key at all")) as P
    by (vm_compute; reflexivity).
  assert (@prepareDir sample.lib sample.dir w
          = (fst (@prepareDir sample.lib sample.dir w), w1)) as E1
    by (unfold w1; apply surjective_pairing).
  assert (@GetPrivateKey sample.lib sample.dir w1 = (r2, w2)) as E2
    by (unfold r2, w2; apply surjective_pairing).
  assert (failed_stats (since w w1) = []) as N1 by (vm_compute; reflexivity).
  assert (failed_stats (since w1 w2) = []) as N2 by (vm_compute; reflexivity).
  destruct (@existing_private_key_is_kept sample.lib sample.dir w _ _ _ D P)
    as (T & _ & _).
  destruct (T _ _ E1 N1) as (G1 & W1 & F1 & K).
  destruct (K _ _ E2 N2) as (G2 & W2 & F2 & _ & R2).
  split; [exact D|]. split; [exact P|]. split; [exact N1|]. split; [exact N2|].
  repeat (split; [assumption|]). apply R2. intros n. reflexivity.
Defined.

(** C2 on an empty directory where no call fails: one key over two runs,
    and the same files. *)
Lemma bootstrap_is_idempotent_witness :
  let w := sample.empty_dir in
  let w1 := snd (@prepareDir sample.lib sample.dir w) in
  let w2 := snd (@prepareDir sample.lib sample.dir w1) in
  fs w !! sample.dir = Some (Dir (octal [7; 0; 0])) /\
  fs w !! sample.private_path = None /\
  fs w !! sample.public_path = None /\
  @prepareDir sample.lib sample.dir w = (Ok tt, w1) /\
  failed_stats (since w1 w2) = [] /\
  generations (since w w1) = 1%nat /\
  generations (since w1 w2) = 0%nat /\
  generations (since w w2) = 1%nat /\
  fs w2 = fs w1.
Proof.
  intros w w1 w2.
  assert (fs w !! sample.dir = Some (Dir (octal [7; 0; 0]))) as D
    by (vm_compute; reflexivity).
  assert (fs w !! @privateKeyFile sample.lib sample.dir = None) as A
    by (vm_compute; reflexivity).
  assert (fs w !! @publicKeyFile sample.lib sample.dir = None) as B
    by (vm_compute; reflexivity).
  assert (@prepareDir sample.lib sample.dir w = (Ok tt, w1)) as E1
    by (vm_compute; reflexivity).
  assert (@prepareDir sample.lib sample.dir w1
          = (fst (@prepareDir sample.lib sample.dir w1), w2)) as E2
    by (unfold w2; apply surjective_pairing).
  assert (failed_stats (since w1 w2) = []) as N2 by (vm_compute; reflexivity).
  destruct (@bootstrap_is_idempotent sample.lib sample.dir w _
              sample_paths_distinct D A B) as [T _].
  destruct (T _ E1 _ _ E2) as [T2 _].
  destruct (T2 N2) as (G1 & G2 & G12 & _ & _ & _ & _ & F).
  split; [exact D|]. split; [exact A|]. split; [exact B|]. split; [exact E1|].
  split; [exact N2|]. repeat (split; [assumption|]). exact F.
Defined.

(** C9 on a directory with a stale public-key file: the file holds the
    public half of the key just drawn. *)
Lemma stale_public_key_is_overwritten_witness :
  let w := sample.with_public sample.no_faults in
  let w1 := snd (@prepareDir sample.lib sample.dir w) in
  fs w !! sample.dir = Some (Dir (octal [7; 0; 0])) /\
  fs w !! sample.public_path = Some (File (octal [6; 0; 0]) "ssh-rsa stale") /\
  fs w !! sample.private_path = None /\
  @prepareDir sample.lib sample.dir w = (Ok tt, w1) /\
  generations (since w w1) = 1%nat /\
  fs w1 !! sample.public_path
  = Some (File (octal [6; 0; 0]) "ssh-rsa public:key2").
Proof.
  intros w w1.
  assert (fs w !! sample.dir = Some (Dir (octal [7; 0; 0]))) as D
    by (vm_compute; reflexivity).
  assert (fs w !! @publicKeyFile sample.lib sample.dir
          = Some (File (octal [6; 0; 0]) "ssh-rsa stale")) as B
    by (vm_compute; reflexivity).
  assert (fs w !! @privateKeyFile sample.lib sample.dir = None) as A
    by (vm_compute; reflexivity).
  assert (@prepareDir sample.lib sample.dir w = (Ok tt, w1)) as E1
    by (vm_compute; reflexivity).
  destruct (@stale_public_key_is_overwritten sample.lib sample.dir w _ _ _ D B A)
    as [T _].
  destruct (T _ E1) as (p & P & _ & G & Fpub & _).
  vm_compute in P. injection P as <-.
  repeat (split; [assumption|]). exact Fpub.
Defined.

(** C5 where the directory is missing: both retrievals succeed and return
    the halves of the key just drawn. *)
Lemma retrieval_bootstraps_first_witness :
  let w := sample.fresh in
  fs w !! sample.dir = None /\
  fst (@GetPrivateKey sample.lib sample.dir w)
  = Ok (@private_pem sample.lib (sample.keys 2)) /\
  fst (@GetPublicKey sample.lib sample.dir w) = Ok "ssh-rsa public:key2" /\
  fs (snd (@GetPublicKey sample.lib sample.dir w)) !! sample.dir
  = Some (Dir (octal [7; 5; 5])).
Proof.
  intros w.
  assert (fs w !! sample.dir = None) as D by (vm_compute; reflexivity).
  assert (fs w !! @privateKeyFile sample.lib sample.dir = None) as A
    by (vm_compute; reflexivity).
  assert (fs w !! @publicKeyFile sample.lib sample.dir = None) as B
    by (vm_compute; reflexivity).
  assert (calm w) as C by (intros n; reflexivity).
  assert (@ssh_NewPublicKey sample.lib (@rsa_Public sample.lib (drawn w))
          = Ok "public:key2") as P by (vm_compute; reflexivity).
  destruct (@retrieval_bootstraps_first sample.lib sample.dir w) as (_ & _ & T).
  destruct (T _ sample_paths_distinct C D A B P)
    as [(w1 & E1 & _) (w2 & E2 & _ & _ & F2)].
  rewrite E1, E2. split; [exact D|]. split; [reflexivity|].
  split; [reflexivity|]. exact F2.
Defined.


(** C7 with the sample libraries, which keep the three promises. *)
Lemma generated_pair_roundtrips_witness :
  let '(r, _) := @rsaKeyGen sample.lib sample.fresh in
  exists privateKey publicKey signer,
    r = Ok (privateKey, publicKey) /\
    @ssh_ParsePrivateKey sample.lib privateKey = Ok signer /\
    @ssh_MarshalAuthorizedKey sample.lib (@ssh_Signer_PublicKey sample.lib signer)
    = publicKey.
Proof.
  destruct (@rsaKeyGen sample.lib sample.fresh) as [r w1] eqn:E.
  assert (r = Ok (@private_pem sample.lib (sample.keys 0), "ssh-rsa public:key0"))
    as -> by (vm_compute in E; injection E as <- _; reflexivity).
  destruct (@generated_pair_roundtrips sample.lib sample_pem_roundtrip
              sample_pkcs1_roundtrip sample_ParsePrivateKey_rsa) as [T _].
  destruct (T _ _ _ _ E) as (signer & S & P).
  exists (@private_pem sample.lib (sample.keys 0)), "ssh-rsa public:key0", signer.
  split; [reflexivity|]. split; [exact S|exact P].
Defined.

(** C6 on the PEM text of a sample key. *)
Lemma config_of_parsed_key_witness :
  let keyBytes := @private_pem sample.lib "key0" in
  @ssh_ParsePrivateKey sample.lib keyBytes = Ok "key0" /\
  exists config : @ssh_ClientConfig sample.lib,
    @ConfigFromKeyBytes sample.lib keyBytes = Ok config /\
    User config = "devpod" /\
    Auth config
    = [@ssh_PublicKeys sample.lib (["key0"] : list (@ssh_Signer sample.lib))] /\
    forall hostname remote key, HostKeyCallback config hostname remote key = None.
Proof.
  intros keyBytes.
  assert (@ssh_ParsePrivateKey sample.lib keyBytes = Ok "key0") as P
    by (vm_compute; reflexivity).
  destruct (@config_of_parsed_key sample.lib keyBytes
              ("key0" : @ssh_Signer sample.lib) P)
    as (config & E & U & A & _ & K & _).
  split; [exact P|]. exists config.
  split; [exact E|]. split; [exact U|]. split; [exact A|exact K].
Defined.

(** C8 where the write of the public-key file is refused: that call is
    the last one, and the bootstrap returns its error under the label of
    the public-key write. *)
Lemma failures_return_at_once_witness :
  let w := sample.world_of ∅ (sample.fault_at 3 (Refused sample.ENOSPC)) in
  let '(r, w1) := @prepareDir sample.lib sample.dir w in
  let write := WriteFile sample.public_path "ssh-rsa public:key2" (octal [6; 4; 4]) in
  since w w1
  = [Ev (MkdirAll sample.dir (octal [7; 5; 5])) None;
     Ev (Stat sample.private_path)
        (Some (PathError "stat" sample.private_path "no such file or directory"));
     Ev (GenerateKey 2048) None]
    ++ Ev write (Some sample.ENOSPC) :: [] /\
  (exists err,
     r = Err err /\ @gave_up sample.lib sample.dir err write (Some sample.ENOSPC)) /\
  r = Err (Wrap sample.ENOSPC "write public ssh key") /\
  exists c outcome,
    last (since w w1) = Some (Ev c outcome) /\
    @gave_up sample.lib sample.dir (Wrap sample.ENOSPC "write public ssh key")
             c outcome.
Proof.
  intros w.
  destruct (@prepareDir sample.lib sample.dir w) as [r w1] eqn:E.
  intros write.
  assert (since w w1
          = [Ev (MkdirAll sample.dir (octal [7; 5; 5])) None;
             Ev (Stat sample.private_path)
                (Some (PathError "stat" sample.private_path
                                 "no such file or directory"));
             Ev (GenerateKey 2048) None]
            ++ Ev write (Some sample.ENOSPC) :: []) as S.
  { pose proof E as E'. vm_compute in E'. injection E' as _ <-.
    vm_compute. reflexivity. }
  assert (forall name, write <> Stat name) as NS by (intros name; discriminate).
  destruct (@failures_return_at_once sample.lib sample.dir w
              (Wrap sample.ENOSPC "write public ssh key"))
    as (T & _ & _ & F & _).
  destruct (F _ _ _ _ _ _ E S NS) as (_ & X).
  assert (r = Err (Wrap sample.ENOSPC "write public ssh key")) as R.
  { pose proof E as E'. vm_compute in E'. injection E' as <- _. reflexivity. }
  split; [exact S|]. split; [exact X|]. split; [exact R|].
  rewrite R in E. exact (T _ E).
Defined.


(** C3 where the client opens and the [Delete] call fails. *)
Lemma delete_command_contract_witness :
  let w := sample.cloud_failing 1 in
  let '(r, w') := cmd.RunE cmd.NewDeleteCmd [] w in
  process.environ w = Ok sample.opts /\
  process.answers w (process.clock w) = None /\
  r = Err sample.quota /\
  process.compute_calls (process.since w w')
  = [process.Ev
       (process.Compute {| project := "my-project"; zone := "europe-west1-b" |}
                        process.Delete "devpod-1")
       (Some sample.quota)].
Proof.
  intros w. pose proof (delete_command_contract [] w) as T.
  destruct (cmd.RunE cmd.NewDeleteCmd [] w) as [r w'].
  destruct T as (_ & _ & T).
  destruct (T sample.opts eq_refl eq_refl) as (R & _ & C).
  split; [reflexivity|]. split; [reflexivity|]. split; [exact R|exact C].
Defined.

(** X1 where the write of the public-key file is refused: four of the
    five calls, one key drawn. *)
Lemma bootstrap_calls_in_order_witness :
  let w := sample.world_of ∅ (sample.fault_at 3 (Refused sample.ENOSPC)) in
  let '(r, w1) := @prepareDir sample.lib sample.dir w in
  r = Err (Wrap sample.ENOSPC "write public ssh key") /\
  map ev_call (since w w1)
  `prefix_of` @bootstrap_calls sample.lib sample.dir (@public_text sample.lib w)
                (@private_pem sample.lib (@drawn sample.lib w)) /\
  (generations (since w w1) <= 1)%nat.
Proof.
  intros w.
  destruct (@prepareDir sample.lib sample.dir w) as [r w1] eqn:E.
  destruct (@bootstrap_calls_in_order sample.lib sample.dir w r w1 E)
    as (P & G & _).
  split; [|split; [exact P|exact G]].
  vm_compute in E. injection E as <- _. reflexivity.
Defined.

(** X2 on three requests where nothing was on disk. *)
Lemma requests_name_the_key_files_witness :
  let w := sample.fresh in
  let w' := @serve_all sample.lib sample.dir [PublicKey; Bootstrap; PrivateKey] w in
  length (since w w') = 11%nat /\
  forallb (fun e => @own_call sample.lib sample.dir (ev_call e)) (since w w') = true.
Proof.
  intros w w'. split; [vm_compute; reflexivity|].
  exact (@requests_name_the_key_files sample.lib sample.dir
           [PublicKey; Bootstrap; PrivateKey] w).
Defined.

(** X12 on a directory with its private key, where the [Stat] of the
    second of three requests fails: one key is drawn, two files written. *)
Lemma keys_follow_failed_stats_witness :
  let w := sample.with_private_under (sample.fault_at 4 (Refused sample.EIO)) in
  let evs := since w (@serve_all sample.lib sample.dir
                        [PrivateKey; Bootstrap; PublicKey] w) in
  length (failed_stats evs) = 1%nat /\ generations evs = 1%nat /\
  (length (writes evs) <= 2)%nat.
Proof.
  intros w evs.
  assert (length (failed_stats evs) = 1%nat) as N by (vm_compute; reflexivity).
  destruct (@keys_follow_failed_stats sample.lib sample.dir
              [PrivateKey; Bootstrap; PublicKey] w) as (G & W & _).
  fold evs in G, W. rewrite N in G, W. split; [exact N|]. split; [exact G|exact W].
Defined.

Lemma sample_with_private_settled : @settled sample.lib sample.dir sample.with_private.
Proof. split; [eexists|eexists]; vm_compute; reflexivity. Qed.

(** X3 on the directory whose private-key file is no key, where no call
    fails. *)
Lemma settled_directory_is_never_touched_witness :
  let w := sample.with_private in
  let w' := @serve_all sample.lib sample.dir [Bootstrap; PublicKey; PrivateKey] w in
  @stats_succeed sample.lib sample.dir [Bootstrap; PublicKey; PrivateKey] w /\
  fs w' = fs w /\ generations (since w w') = 0%nat /\ writes (since w w') = [].
Proof.
  intros w w'.
  assert (@stats_succeed sample.lib sample.dir
            [Bootstrap; PublicKey; PrivateKey] w) as N
    by (vm_compute; reflexivity).
  destruct (@settled_directory_is_never_touched sample.lib sample.dir
              [Bootstrap; PublicKey; PrivateKey] w sample_with_private_settled)
    as [_ T].
  destruct (T N) as (F & G & W & _).
  split; [exact N|]. split; [exact F|]. split; [exact G|exact W].
Defined.

(** X4 where nothing was on disk: after a first retrieval, two more
    requests draw no key. *)
Lemma one_success_settles_witness :
  let w := sample.fresh in
  let w1 := @serve sample.lib sample.dir PrivateKey w in
  let w2 := @serve_all sample.lib sample.dir [PublicKey; Bootstrap] w1 in
  @reply sample.lib sample.dir PrivateKey w
  = Ok (@private_pem sample.lib (sample.keys 2)) /\
  @stats_succeed sample.lib sample.dir [PublicKey; Bootstrap] w1 /\
  fs w2 = fs w1 /\ generations (since w1 w2) = 0%nat.
Proof.
  intros w w1 w2.
  assert (@reply sample.lib sample.dir PrivateKey w
          = Ok (@private_pem sample.lib (sample.keys 2))) as R
    by (vm_compute; reflexivity).
  assert (@stats_succeed sample.lib sample.dir [PublicKey; Bootstrap] w1) as N
    by (vm_compute; reflexivity).
  destruct (@one_success_settles sample.lib sample.dir PrivateKey w _
              sample_paths_distinct R) as [T _].
  destruct (T [PublicKey; Bootstrap] N) as (F & G & _).
  split; [exact R|]. split; [exact N|]. split; [exact F|exact G].
Defined.

(** X5 on the directory with a private-key file and no public-key file. *)
Lemma missing_public_key_is_not_restored_witness :
  let w := sample.with_private in
  let w' := @serve_all sample.lib sample.dir [PublicKey; Bootstrap] w in
  fs w !! sample.public_path = None /\
  @stats_succeed sample.lib sample.dir [PublicKey; Bootstrap] w /\
  fs w' !! sample.public_path = None /\
  @reply sample.lib sample.dir PublicKey w'
  = Err (Wrap (PathError "open" sample.public_path "no such file or directory")
              "read public ssh key").
Proof.
  intros w w'.
  assert (fs w !! @publicKeyFile sample.lib sample.dir = None) as B
    by (vm_compute; reflexivity).
  assert (@stats_succeed sample.lib sample.dir [PublicKey; Bootstrap] w) as N
    by (vm_compute; reflexivity).
  destruct (@missing_public_key_is_not_restored sample.lib sample.dir
              [PublicKey; Bootstrap] w sample_with_private_settled B N)
    as (L & _ & R).
  split; [exact B|]. split; [exact N|]. split; [exact L|].
  apply R. intros n. reflexivity.
Defined.

(** X6 where the write of the public-key file is refused. *)
Lemma errors_keep_the_cause_witness :
  let w := sample.world_of ∅ (sample.fault_at 3 (Refused sample.ENOSPC)) in
  exists label,
    label ∈ @stage_prefixes /\
    Error (Wrap sample.ENOSPC "write public ssh key")
    = label +:+ Error sample.ENOSPC.
Proof.
  intros w.
  apply (@errors_keep_the_cause sample.lib sample.dir Bootstrap w).
  - vm_compute. reflexivity.
  - vm_compute. reflexivity.
Defined.

(** X7 with a dialer that turns every connection down. *)
Lemma NewClient_outcomes_witness :
  let dial : string -> string -> @ssh_ClientConfig sample.lib -> result unit :=
    fun _ _ _ => Err (Message "connection refused") in
  let keyBytes := @private_pem sample.lib "key0" in
  exists err,
    @NewClient sample.lib unit dial "10.0.0.7:22" keyBytes = Err err /\
    is_wrapped err = false /\
    Error err = "dial to 10.0.0.7:22 failed: connection refused".
Proof.
  intros dial keyBytes.
  destruct (@NewClient_outcomes sample.lib unit dial "10.0.0.7:22" keyBytes)
    as (_ & _ & D & _).
  destruct (@ConfigFromKeyBytes sample.lib keyBytes) as [config|e] eqn:E.
  - exact (D config (Message "connection refused") eq_refl eq_refl).
  - vm_compute in E. discriminate E.
Defined.

(** X8 on the directory whose private-key file is no key. *)
Lemma unparsable_key_is_handed_out_witness :
  let w := sample.with_private in
  let w' := @serve_all sample.lib sample.dir [PublicKey; PrivateKey] w in
  @ssh_ParsePrivateKey sample.lib "not a key at all"
  = Err (Message "ssh: no key found") /\
  @stats_succeed sample.lib sample.dir [PublicKey; PrivateKey] w /\
  @reply sample.lib sample.dir PrivateKey w' = Ok "not a key at all" /\
  fs w' !! sample.private_path
  = Some (File (octal [6; 0; 0]) "not a key at all").
Proof.
  intros w w'.
  assert (fs w !! sample.dir = Some (Dir (octal [7; 0; 0]))) as D
    by (vm_compute; reflexivity).
  assert (fs w !! @privateKeyFile sample.lib sample.dir
          = Some (File (octal [6; 0; 0]) "not a key at all")) as P
    by (vm_compute; reflexivity).
  assert (@ssh_ParsePrivateKey sample.lib "not a key at all"
          = Err (Message "ssh: no key found")) as B
    by (vm_compute; reflexivity).
  assert (@stats_succeed sample.lib sample.dir [PublicKey; PrivateKey] w) as N
    by (vm_compute; reflexivity).
  destruct (@unparsable_key_is_handed_out sample.lib sample.dir
              [PublicKey; PrivateKey] w _ _ _ _ D P B N) as (L & _ & R & _).
  split; [exact B|]. split; [exact N|]. split; [|exact L].
  apply R. intros n. reflexivity.
Defined.



(** X13 on the directory whose private-key file is no key, where the
    [Stat] fails on an input/output error: the file now holds a new key. *)
Lemma failed_stat_replaces_the_key_witness :
  let w := sample.with_private_under (sample.fault_at 1 (Refused sample.EIO)) in
  fs w !! sample.private_path = Some (File (octal [6; 0; 0]) "not a key at all") /\
  exists w1,
    @prepareDir sample.lib sample.dir w = (Ok tt, w1) /\
    fs w1 !! sample.private_path
    = Some (File (octal [6; 0; 0]) (@private_pem sample.lib (sample.keys 2))).
Proof.
  intros w.
  assert (fs w !! sample.dir = Some (Dir (octal [7; 0; 0]))) as D
    by (vm_compute; reflexivity).
  assert (fs w !! @privateKeyFile sample.lib sample.dir
          = Some (File (octal [6; 0; 0]) "not a key at all")) as P
    by (vm_compute; reflexivity).
  assert (forall m, fs w !! @publicKeyFile sample.lib sample.dir <> Some (Dir m))
    as ND by (intros m E; vm_compute in E; discriminate E).
  assert (oracle w (clock w + 1)%nat = Some (Refused sample.EIO)) as O
    by (vm_compute; reflexivity).
  assert (forall n, n <> (clock w + 1)%nat -> oracle w n = None) as C.
  { intros n Hn. change (sample.fault_at 1 (Refused sample.EIO) n = None).
    unfold sample.fault_at. destruct (Nat.eqb_spec n 1) as [->|]; [|reflexivity].
    destruct Hn. reflexivity. }
  assert (@ssh_NewPublicKey sample.lib (@rsa_Public sample.lib (drawn w))
          = Ok "public:key2") as Pk by (vm_compute; reflexivity).
  destruct (@failed_stat_replaces_the_key sample.lib sample.dir w _ _ _ _ _
              sample_paths_distinct D P ND O C Pk)
    as (w1 & E & _ & _ & Lpriv).
  split; [exact P|]. exists w1. split; [exact E|]. exact Lpriv.
Defined.

(** X11 where the [Delete] call fails: the client is released all the same. *)
Lemma client_is_released_witness :
  let w := sample.cloud_failing 1 in
  let '(r, w') := cmd.RunE cmd.NewDeleteCmd [] w in
  r = Err sample.quota /\
  length (handle.releases (process.since w w')) = 1%nat /\
  exists client outcome,
    last (process.since w w') = Some (process.Ev (process.Release client) outcome).
Proof.
  intros w. pose proof (client_is_released [] w) as T.
  destruct (cmd.RunE cmd.NewDeleteCmd [] w) as [r w'] eqn:E.
  destruct T as (R & _ & L & _ & _).
  assert (handle.obtained (process.since w w') <> []) as N.
  { vm_compute in E. injection E as _ <-. vm_compute. discriminate. }
  split; [|split; [|exact (L N)]].
  - vm_compute in E. injection E as <- _. reflexivity.
  - vm_compute in E. injection E as _ <-. vm_compute. reflexivity.
Defined.

(** The slip in [GetPrivateKey], on a directory whose private-key file
    cannot be read: the error carries the label of the public-key read. *)
Example private_read_failure_is_labelled_public :
  let w := sample.world_of (fs sample.with_private)
             (sample.fault_at 2 (Refused (PathError "open" sample.private_path
                                                    "permission denied"))) in
  fst (@GetPrivateKey sample.lib sample.dir w)
  = Err (Wrap (PathError "open" sample.private_path "permission denied")
              "read public ssh key").
Proof. vm_compute. reflexivity. Qed.

(** ** Where the specification and the code part *)

(** C1 as stated fails: the private-key file is there, the [Stat] of the
    bootstrap fails on an input/output error, and the bootstrap draws a
    key and writes both key files; the retrieval that follows returns the
    new key, not what the file held. *)
Lemma failed_stat_overwrites_private_key :
  let w := sample.with_private_under (sample.fault_at 1 (Refused sample.EIO)) in
  let '(r, w1) := @prepareDir sample.lib sample.dir w in
  fs w !! sample.dir = Some (Dir (octal [7; 0; 0])) /\
  fs w !! sample.private_path
  = Some (File (octal [6; 0; 0]) "not a key at all") /\
  r = Ok tt /\
  generations (since w w1) = 1%nat /\
  length (writes (since w w1)) = 2%nat /\
  fs w1 !! sample.private_path
  = Some (File (octal [6; 0; 0]) (@private_pem sample.lib (sample.keys 2))) /\
  fst (@GetPrivateKey sample.lib sample.dir w1)
  = Ok (@private_pem sample.lib (sample.keys 2)) /\
  @private_pem sample.lib (sample.keys 2) <> "not a key at all".
Proof. vm_compute. repeat split; discriminate. Qed.

(** C2 as stated fails, in two ways.  After a first bootstrap that
    succeeded on an empty directory, a second one whose [Stat] fails
    draws a second key and replaces both key files.  And a first bootstrap
    that fails generates no pair: the pair is then generated by the second,
    and the key files are not what they were after the first. *)
Lemma second_bootstrap_redraws_on_failed_stat :
  (let w := sample.empty_dir_under (sample.fault_at 6 (Refused sample.EIO)) in
   let '(r1, w1) := @prepareDir sample.lib sample.dir w in
   let '(r2, w2) := @prepareDir sample.lib sample.dir w1 in
   fs w !! sample.private_path = None /\ fs w !! sample.public_path = None /\
   r1 = Ok tt /\ r2 = Ok tt /\
   generations (since w w1) = 1%nat /\ generations (since w1 w2) = 1%nat /\
   generations (since w w2) = 2%nat /\
   fs w1 !! sample.private_path
   = Some (File (octal [6; 0; 0]) (@private_pem sample.lib (sample.keys 2))) /\
   fs w2 !! sample.private_path
   = Some (File (octal [6; 0; 0]) (@private_pem sample.lib (sample.keys 7))) /\
   fs w2 !! sample.private_path <> fs w1 !! sample.private_path /\
   fs w2 !! sample.public_path <> fs w1 !! sample.public_path) /\
  (let w := sample.empty_dir_under (sample.fault_at 2 (Refused sample.EOF)) in
   let '(r1, w1) := @prepareDir sample.lib sample.dir w in
   let '(r2, w2) := @prepareDir sample.lib sample.dir w1 in
   fs w !! sample.private_path = None /\ fs w !! sample.public_path = None /\
   (exists err, r1 = Err err) /\ r2 = Ok tt /\
   fs w1 !! sample.private_path = None /\
   generations (since w w1) = 1%nat /\ generations (since w1 w2) = 1%nat /\
   fs w2 !! sample.private_path
   = Some (File (octal [6; 0; 0]) (@private_pem sample.lib (sample.keys 5))) /\
   fs w2 !! sample.private_path <> fs w1 !! sample.private_path).
Proof. vm_compute. repeat split; try discriminate. by eexists. Qed.

(** C3 as stated fails: with a configuration that loads, the command makes
    no compute-API call at all when the client cannot be opened. *)
Lemma delete_makes_no_call_without_client :
  let w := sample.cloud_failing 0 in
  let '(r, w') := cmd.RunE cmd.NewDeleteCmd [] w in
  process.environ w = Ok sample.opts /\
  r = Err sample.quota /\
  process.compute_calls (process.since w w') = [] /\
  length (process.compute_calls (process.since w w')) <> 1%nat.
Proof. vm_compute. repeat split; discriminate. Qed.


(** C8 as stated fails: the error of a failed directory creation comes back
    as it is, under no label. *)
Lemma mkdir_error_is_not_wrapped :
  let w := sample.world_of ∅ (sample.fault_at 0 (Refused sample.EACCES)) in
  let '(r, w1) := @prepareDir sample.lib sample.dir w in
  r = Err sample.EACCES /\
  is_wrapped sample.EACCES = false /\
  since w w1 = [Ev (MkdirAll sample.dir (octal [7; 5; 5])) (Some sample.EACCES)].
Proof. vm_compute. repeat split. Qed.

